(** * Country-name join and correlation pipeline of the MBTI dashboard

    A shallow embedding of [src/pages/04_GNP.py]: the name normalizer
    ([normalize_country_name]), the column checks, the many-to-one inner
    join on the normalized name, the optional [log1p] transform, the
    correlation table ([compute_correlations]) and its display order.

    Conventions of the embedding:
    - a Python [str] is the list of its Unicode code points ([pystr]);
    - a [float64] cell is [NaN], an infinity or a finite real number
      (rounding is not modelled; missingness and order are exact);
    - [st.error] followed by [st.stop] is the outcome [Stop], an uncaught
      Python exception is the outcome [Raise]. *)

From Stdlib Require Import Ascii String NArith Reals Lra.
From stdpp Require Import base list gmap strings sorting.

Local Open Scope N_scope.

(** ** Python strings *)

Definition pystr := list N.

(** An ASCII literal as a Python string. *)
Fixpoint py (s : string) : pystr :=
  match s with
  | EmptyString => []
  | String a r => N_of_ascii a :: py r
  end.

(** [str.isspace] on one code point; [re]'s [\s] on [str] patterns uses the
    same table. *)
Definition isspace (c : N) : bool :=
  ((9 <=? c) && (c <=? 13)) || ((28 <=? c) && (c <=? 32))
  || (c =? 133) || (c =? 160) || (c =? 5760)
  || ((8192 <=? c) && (c <=? 8202))
  || (c =? 8232) || (c =? 8233) || (c =? 8239) || (c =? 8287) || (c =? 12288).

Definition SPACE : N := 32.

(** [str.lstrip()], [str.rstrip()], [str.strip()]. *)
Fixpoint lstrip (l : pystr) : pystr :=
  match l with
  | [] => []
  | c :: r => if isspace c then lstrip r else l
  end.

Fixpoint rstrip (l : pystr) : pystr :=
  match l with
  | [] => []
  | c :: r =>
      match rstrip r with
      | [] => if isspace c then [] else [c]
      | r' => c :: r'
      end
  end.

Definition strip (l : pystr) : pystr := rstrip (lstrip l).

(** [re.sub(r"\s+", " ", l)]: every maximal run of whitespace becomes one
    space.  [in_run] tells that the previous character belonged to a run
    whose replacement has been emitted. *)
Fixpoint re_sub_ws (in_run : bool) (l : pystr) : pystr :=
  match l with
  | [] => []
  | c :: r =>
      if isspace c
      then (if in_run then re_sub_ws true r else SPACE :: re_sub_ws true r)
      else c :: re_sub_ws false r
  end.

Definition collapse (l : pystr) : pystr := re_sub_ws false l.

(** ** Name normalizer ([normalize_country_name], lines 22-58) *)

(** A cell of a name column read from CSV: text, or [NaN] for an empty
    cell. *)
Inductive obj :=
  | OStr (s : pystr)
  | ONaN.

(** [Series.astype(str)] on one cell: [str(float("nan"))] is ["nan"]. *)
Definition astype_str (o : obj) : pystr :=
  match o with
  | OStr s => s
  | ONaN => py "nan"
  end.

(** The dict [repl], in source order. *)
Definition repl : list (pystr * pystr) :=
  [ (py "United States", py "United States of America");
    (py "Russia", py "Russian Federation");
    (py "South Korea", py "Korea, Republic of");
    (py "North Korea", py "Korea, Democratic People's Republic of");
    (py "Vietnam", py "Viet Nam");
    (py "Czech Republic", py "Czechia");
    (py "Ivory Coast", py "C" ++ [244] ++ py "te d'Ivoire");
    (py "Tanzania", py "United Republic of Tanzania");
    (py "Syria", py "Syrian Arab Republic");
    (py "Macau", py "Macao");
    (py "Hong Kong", py "Hong Kong SAR, China");
    (py "Iran", py "Iran, Islamic Republic of");
    (py "Moldova", py "Moldova, Republic of");
    (py "Laos", py "Lao People's Democratic Republic");
    (py "Bolivia", py "Bolivia (Plurinational State of)");
    (py "Venezuela", py "Venezuela (Bolivarian Republic of)");
    (py "Brunei", py "Brunei Darussalam");
    (py "Cape Verde", py "Cabo Verde");
    (py "Congo (Kinshasa)", py "Congo, the Democratic Republic of the");
    (py "Congo (Brazzaville)", py "Congo");
    (py "Micronesia", py "Micronesia, Federated States of");
    (py "The Bahamas", py "Bahamas");
    (py "Gambia", py "Gambia, The");
    (py "Eswatini", py "Swaziland");
    (py "Burma", py "Myanmar");
    (py "Kyrgyzstan", py "Kyrgyz Republic") ].

(** Lookup in a dict given as its item list. *)
Fixpoint dict_get (d : list (pystr * pystr)) (k : pystr) : option pystr :=
  match d with
  | [] => None
  | (k', v) :: d' => if decide (k = k') then Some v else dict_get d' k
  end.

(** [Series.replace(d)] on one cell: a cell equal to a key becomes that
    key's value, any other cell is kept. *)
Definition replace_value (d : list (pystr * pystr)) (x : pystr) : pystr :=
  match dict_get d x with
  | Some v => v
  | None => x
  end.

(** Steps of line 28 on one cell, then line 57. *)
Definition base_name (o : obj) : pystr := collapse (strip (astype_str o)).

Definition normalize_name (o : obj) : pystr := replace_value repl (base_name o).

Definition normalize_country_name (s : list obj) : list pystr :=
  map normalize_name s.

(** Whitespace normal form: no whitespace at either end, and every
    whitespace character is one space followed by a non-space. *)
Definition starts_ok (l : pystr) : bool :=
  match l with
  | [] => true
  | c :: _ => negb (isspace c)
  end.

Fixpoint ends_ok (l : pystr) : bool :=
  match l with
  | [] => true
  | c :: r =>
      match r with
      | [] => negb (isspace c)
      | _ :: _ => ends_ok r
      end
  end.

Fixpoint single_spaces (l : pystr) : bool :=
  match l with
  | [] => true
  | c :: r =>
      (if isspace c then (c =? SPACE) && starts_ok r else true)
      && single_spaces r
  end.

Definition ws_normal (l : pystr) : bool :=
  starts_ok l && ends_ok l && single_spaces l.

(** The words of a string, [str.split()]: maximal runs of non-whitespace. *)
Fixpoint split_ws (cur : pystr) (l : pystr) : list pystr :=
  match l with
  | [] => match cur with [] => [] | _ => [rev cur] end
  | c :: r =>
      if isspace c
      then match cur with [] => split_ws [] r | _ => rev cur :: split_ws [] r end
      else split_ws (c :: cur) r
  end.

Definition words (l : pystr) : list pystr := split_ws [] l.

(** [" ".join(ws)]. *)
Fixpoint join_space (ws : list pystr) : pystr :=
  match ws with
  | [] => []
  | [w] => w
  | w :: ws' => w ++ SPACE :: join_space ws'
  end.

(** The normalizer as the specification words it: the words of the name
    joined by single spaces (surrounding whitespace removed, inner runs
    collapsed), then the alias table seen as a finite map; a name that is
    not a key of the table is kept. *)
Definition alias_table : gmap pystr pystr := list_to_map repl.

Definition spec_normalize_name (o : obj) : pystr :=
  let b := join_space (words (astype_str o)) in
  default b (alias_table !! b).

(** Every value of the table is in whitespace normal form and is not
    itself a key. *)
Definition value_is_final (kv : pystr * pystr) : bool :=
  ws_normal kv.2 && bool_decide (dict_get repl kv.2 = None).

(** ** Numbers, columns and outcomes *)

(** A [float64] cell.  [np.nan] is [NaN]; a finite value carries the real
    number it stands for. *)
Inductive float :=
  | NaN
  | NInf
  | PInf
  | Fin (x : R).

(** [pd.isna] on a numeric cell: only [NaN] is missing, an infinity is
    not. *)
Definition isna (x : float) : bool :=
  match x with
  | NaN => true
  | _ => false
  end.

Definition notna (x : float) : bool := negb (isna x).

(** [np.log1p] on one cell: [log(1 + x)], [NaN] below [-1] and for [NaN],
    minus infinity at [-1]. *)
Definition log1p (x : float) : float :=
  match x with
  | NaN => NaN
  | NInf => NaN
  | PInf => PInf
  | Fin r =>
      if Rlt_dec r (-1) then NaN
      else if Req_EM_T r (-1) then NInf
      else Fin (ln (1 + r))
  end.

(** The numeric columns of a table, by label, in column order.  All
    columns of one table have the same number of rows. *)
Definition NumFrame := list (string * list float).

Fixpoint getcol (df : NumFrame) (c : string) : option (list float) :=
  match df with
  | [] => None
  | (c', xs) :: df' => if decide (c = c') then Some xs else getcol df' c
  end.

(** [df[c] = xs]: replaces the column labelled [c], or appends it. *)
Fixpoint setcol (df : NumFrame) (c : string) (xs : list float) : NumFrame :=
  match df with
  | [] => [(c, xs)]
  | (c', ys) :: df' =>
      if decide (c = c') then (c, xs) :: df' else (c', ys) :: setcol df' c xs
  end.

Inductive exn :=
  | KeyError (label : string)
  | MergeError
  | TypeError.

(** How a run of the page script ends: with a value, with an uncaught
    exception, or halted by [st.stop()] after the message of
    [st.error]. *)
Inductive outcome (A : Type) :=
  | Ok (a : A)
  | Raise (e : exn)
  | Stop (msg : string).

Arguments Ok {A} a.
Arguments Raise {A} e.
Arguments Stop {A} msg.

Definition bind {A B} (m : outcome A) (k : A -> outcome B) : outcome B :=
  match m with
  | Ok a => k a
  | Raise e => Raise e
  | Stop msg => Stop msg
  end.

Notation "'let*' x ':=' m 'in' k" := (bind m (fun x => k))
  (at level 10, x name, m at level 100, k at level 200).

(** ** Correlation engine ([compute_correlations], lines 60-84) *)

(** One dict appended to [rows]. *)
Record CorrRow := {
  MBTI : string;
  pearson_r : float;
  pearson_p : float;
  spearman_r : float;
  spearman_p : float;
  n : nat
}.

(** [df_join[[c, y_col]]]: the two columns row by row, [KeyError] when a
    label is absent. *)
Definition getitem2 (df : NumFrame) (c y_col : string)
  : outcome (list (float * float)) :=
  match getcol df c with
  | None => Raise (KeyError c)
  | Some xs =>
      match getcol df y_col with
      | None => Raise (KeyError y_col)
      | Some ys => Ok (zip xs ys)
      end
  end.

(** [DataFrame.dropna()]: keeps the rows with no missing cell. *)
Definition row_valid (r : float * float) : bool := notna r.1 && notna r.2.

Definition dropna (sub : list (float * float)) : list (float * float) :=
  filter (fun r => row_valid r = true) sub.

Section Correlation.

(** [scipy.stats.pearsonr] and [scipy.stats.spearmanr], each returning the
    coefficient and the two-sided p-value. *)
Variables pearsonr spearmanr : list float -> list float -> float * float.

(** The body of the loop for one column [c] whose valid rows are [sub]. *)
Definition corr_row (c : string) (sub : list (float * float)) : CorrRow :=
  if (length sub <? 3)%nat then
    {| MBTI := c;
       pearson_r := NaN; pearson_p := NaN;
       spearman_r := NaN; spearman_p := NaN;
       n := length sub |}
  else
    let pr := pearsonr sub.*1 sub.*2 in
    let sr := spearmanr sub.*1 sub.*2 in
    {| MBTI := c;
       pearson_r := pr.1; pearson_p := pr.2;
       spearman_r := sr.1; spearman_p := sr.2;
       n := length sub |}.

(** The loop, rows appended in the order of [mbti_cols]; the returned
    table is the list of its rows. *)
Fixpoint compute_correlations (df_join : NumFrame) (mbti_cols : list string)
    (y_col : string) : outcome (list CorrRow) :=
  match mbti_cols with
  | [] => Ok []
  | c :: rest =>
      let* sub := getitem2 df_join c y_col in
      let* rows := compute_correlations df_join rest y_col in
      Ok (corr_row c (dropna sub) :: rows)
  end.

(** What the loop body records for a column whose valid rows are [sub]. *)
Definition row_as_specified (c : string) (sub : list (float * float))
    (r : CorrRow) : Prop :=
  MBTI r = c /\ n r = length sub
  /\ ((length sub < 3)%nat ->
        pearson_r r = NaN /\ pearson_p r = NaN
        /\ spearman_r r = NaN /\ spearman_p r = NaN)
  /\ ((3 <= length sub)%nat ->
        (pearson_r r, pearson_p r) = pearsonr sub.*1 sub.*2
        /\ (spearman_r r, spearman_p r) = spearmanr sub.*1 sub.*2).

End Correlation.

(** The valid rows [compute_correlations] works on for column [c]. *)
Definition valid_rows (df : NumFrame) (c y_col : string)
  : list (float * float) :=
  match getitem2 df c y_col with
  | Ok sub => dropna sub
  | _ => []
  end.

(** The labels [cs] are all columns of [df]. *)
Definition has_columns (df : NumFrame) (cs : list string) : bool :=
  forallb (fun c => bool_decide (is_Some (getcol df c))) cs.

(** ** Sample data *)

(** A joined table with a missing ratio in its first column. *)
Definition sample_join : NumFrame :=
  [ ("INFP", [Fin 0.1; NaN; Fin 0.3]);
    ("ESTJ", [Fin 0.2; Fin 0.1; Fin 0.4]);
    ("Y_trans", [Fin 1; Fin 2; Fin 3]) ]%R.

(** A stand-in for a statistics routine. *)
Definition const_stat (r p : float) : list float -> list float -> float * float :=
  fun _ _ => (r, p).

(** ** Log transform (lines 162-169) *)

(** The column the correlations are computed on: with [log_scale] the
    table gets the column [Y_trans = np.log1p(Y_value)]. *)
Definition log_transform (log_scale : bool) (df_join : NumFrame)
  : outcome (NumFrame * string) :=
  if log_scale then
    match getcol df_join "Y_value" with
    | Some ys => Ok (setcol df_join "Y_trans" (map log1p ys), "Y_trans")
    | None => Raise (KeyError "Y_value")
    end
  else Ok (df_join, "Y_value").





(** A joined table as the join leaves it. *)
Definition positive_join : NumFrame :=
  [ ("INFP", [Fin 0.1; NaN; Fin 0.3]);
    ("Y_value", [Fin 30000; Fin 0; NaN]) ]%R.

(** ** Display order of the correlation table (lines 177-179) *)

Definition R_ltb (x y : R) : bool := if Rlt_dec x y then true else false.

(** [<] on non-missing cells. *)
Definition float_ltb (a b : float) : bool :=
  match a, b with
  | NInf, (Fin _ | PInf) => true
  | Fin x, Fin y => R_ltb x y
  | Fin _, PInf => true
  | _, _ => false
  end.

(** [abs] on one cell. *)
Definition fabs (x : float) : float :=
  match x with
  | NaN => NaN
  | NInf => PInf
  | PInf => PInf
  | Fin r => Fin (Rabs r)
  end.

(** A column picked from the table: [Series.name] and the values.
    [Series.abs] keeps the name. *)
Record Series := { name : string; values : list float }.

Definition Series_abs (s : Series) : Series :=
  {| name := name s; values := map fabs (values s) |}.

(** [corr_df["pearson_r"]]: a table built from an empty list of rows has
    no columns. *)
Definition getitem_pearson_r (corr_df : list CorrRow) : outcome Series :=
  match corr_df with
  | [] => Raise (KeyError "pearson_r")
  | _ => Ok {| name := "pearson_r"; values := map pearson_r corr_df |}
  end.

(** The cell a row is sorted on. *)
Inductive sortkey :=
  | KNum (x : float)
  | KText (s : string).

Definition column_key (label : string) : option (CorrRow -> sortkey) :=
  if decide (label = "MBTI") then Some (fun r => KText (MBTI r))
  else if decide (label = "pearson_r") then Some (fun r => KNum (pearson_r r))
  else if decide (label = "pearson_p") then Some (fun r => KNum (pearson_p r))
  else if decide (label = "spearman_r") then Some (fun r => KNum (spearman_r r))
  else if decide (label = "spearman_p") then Some (fun r => KNum (spearman_p r))
  else if decide (label = "n") then Some (fun r => KNum (Fin (INR (n r))))
  else None.

(** Whether a row with key [a] stays before a row with key [b] that
    follows it in the table, for [ascending=False] and the default
    [na_position="last"]: missing keys go last, equal keys keep their
    order. *)
Definition stays_before (a b : sortkey) : bool :=
  match a, b with
  | KNum _, KNum NaN => true
  | KNum NaN, KNum _ => false
  | KNum x, KNum y => negb (float_ltb x y)
  | KText s, KText t => negb (String.ltb s t)
  | _, _ => true
  end.

Section Sort.

Variable key : CorrRow -> sortkey.

Fixpoint insert_desc (r : CorrRow) (l : list CorrRow) : list CorrRow :=
  match l with
  | [] => [r]
  | r' :: l' =>
      if stays_before (key r) (key r') then r :: l
      else r' :: insert_desc r l'
  end.

Definition sort_desc (l : list CorrRow) : list CorrRow :=
  foldr insert_desc [] l.

End Sort.

(** [df.sort_values(by=label, ascending=False)]. *)
Definition sort_values_desc (df : list CorrRow) (label : string)
  : outcome (list CorrRow) :=
  match df with
  | [] => Raise (KeyError label)
  | _ =>
      match column_key label with
      | Some key => Ok (sort_desc key df)
      | None => Raise (KeyError label)
      end
  end.

(** Lines 178-179: the sort key is computed, and only its name is handed
    to [sort_values]. *)
Definition corr_df_display (use_abs_sort : bool) (corr_df : list CorrRow)
  : outcome (list CorrRow) :=
  let* col := getitem_pearson_r corr_df in
  let sort_key := if use_abs_sort then Series_abs col else col in
  sort_values_desc corr_df (name sort_key).

(** The order the magnitude mode asks for: by [|pearson_r|], largest
    first. *)
Definition sort_by_magnitude (corr_df : list CorrRow) : list CorrRow :=
  sort_desc (fun r => KNum (fabs (pearson_r r))) corr_df.

(** Two result rows, the weaker correlation first. *)
Definition weak_row : CorrRow :=
  {| MBTI := "INFP"; pearson_r := Fin 0.1; pearson_p := Fin 0.8;
     spearman_r := Fin 0.1; spearman_p := Fin 0.8; n := 10 |}%R.

Definition strong_negative_row : CorrRow :=
  {| MBTI := "ESTJ"; pearson_r := Fin (-0.9); pearson_p := Fin 0.001;
     spearman_r := Fin (-0.9); spearman_p := Fin 0.001; n := 10 |}%R.

(** ** Column checks and preprocessing (lines 117-141) *)

Inductive Column :=
  | NumCol (xs : list float)
  | ObjCol (os : list obj).

(** A table as read from a CSV file: the name column [Country], when the
    file has one, and the other columns by label, in file order (their
    labels differ from ["Country"] and from each other, as [read_csv]
    makes them). *)
Record Frame := {
  Country : option (list obj);
  cols : list (string * Column)
}.

(** [df.columns]. *)
Definition columns (df : Frame) : list string :=
  match Country df with
  | Some _ => "Country" :: (cols df).*1
  | None => (cols df).*1
  end.

Definition is_numeric_dtype (c : Column) : bool :=
  match c with
  | NumCol _ => true
  | ObjCol _ => false
  end.

(** Line 125. *)
Definition select_mbti_cols (df_mbti : Frame) : list string :=
  (filter (fun cc => cc.1 <> "Country" /\ is_numeric_dtype cc.2 = true)
     (cols df_mbti)).*1.

(** [str.lower] on labels; only the letters A-Z matter for the names
    below. *)
Definition lower_ascii (a : ascii) : ascii :=
  let k := nat_of_ascii a in
  if ((65 <=? k) && (k <=? 90))%nat then ascii_of_nat (k + 32) else a.

Fixpoint str_lower (s : string) : string :=
  match s with
  | EmptyString => EmptyString
  | String a r => String (lower_ascii a) (str_lower r)
  end.

Definition indicator_names : list string :=
  ["gnp"; "gnp_per_capita"; "gni"; "gni_per_capita"; "gdp"; "gdp_per_capita"].

(** Line 128. *)
Definition select_candidate_y (df_gnp : Frame) : list string :=
  filter (fun c => str_lower c ∈ indicator_names) (columns df_gnp).

(** The column [Country_norm]: normalized names, or the scalar [np.nan]
    broadcast over the rows (line 135, table without [Country]). *)
Inductive NormColumn :=
  | Names (l : list pystr)
  | Broadcast_nan.

Record Prepared := {
  p_mbti_cols : list string;
  p_candidate_y : list string;
  p_mbti_norm : list pystr;
  p_gnp_norm : NormColumn
}.

(** Lines 120-135. *)
Definition preprocess (df_mbti df_gnp : Frame) : outcome Prepared :=
  match Country df_mbti with
  | None => Stop "MBTI CSV에 'Country' 컬럼이 필요합니다."
  | Some names =>
      match select_candidate_y df_gnp with
      | [] => Stop "GNP CSV에서 타깃 수치 컬럼을 찾지 못했습니다. (예: GNP, GNP_per_capita 등)"
      | cy =>
          Ok {| p_mbti_cols := select_mbti_cols df_mbti;
                p_candidate_y := cy;
                p_mbti_norm := normalize_country_name names;
                p_gnp_norm :=
                  match Country df_gnp with
                  | Some gnames => Names (normalize_country_name gnames)
                  | None => Broadcast_nan
                  end |}
      end
  end.


Definition sample_mbti : Frame :=
  {| Country := Some [OStr (py "South Korea"); OStr (py "Japan"); OStr (py "Chile")];
     cols := [ ("INFP", NumCol [Fin 0.1; Fin 0.2; Fin 0.3]);
               ("ESTJ", NumCol [Fin 0.3; Fin 0.2; Fin 0.1]) ] |}%R.

(** An economic table whose name column is labelled [Nation]. *)
Definition gnp_without_country : Frame :=
  {| Country := None;
     cols := [ ("Nation", ObjCol [OStr (py "Japan")]);
               ("GNP", NumCol [Fin 40000]) ] |}%R.

(** ** Join (lines 143-160) *)

(** Position of the first row of [rk] whose key is [k]. *)
Fixpoint index_of (k : pystr) (rk : list pystr) : option nat :=
  match rk with
  | [] => None
  | k' :: rk' => if decide (k = k') then Some 0%nat else S <$> index_of k rk'
  end.

(** Row pairs of the inner join: for each left row from position [i] on,
    in order, the right row with an equal key. *)
Fixpoint match_rows (i : nat) (lk rk : list pystr) : list (nat * nat) :=
  match lk with
  | [] => []
  | k :: lk' =>
      match index_of k rk with
      | Some j => (i, j) :: match_rows (S i) lk' rk
      | None => match_rows (S i) lk' rk
      end
  end.

(** [pd.merge(left, right, on="Country_norm", how="inner",
    validate="m:1")] on the key columns: [MergeError] unless the right
    keys are unique. *)
Definition merge_indexer (lk rk : list pystr) : outcome (list (nat * nat)) :=
  if bool_decide (NoDup rk) then Ok (match_rows 0 lk rk) else Raise MergeError.

(** [col.take(idx)]. *)
Definition take_rows {A} (col : list A) (idx : list nat) : list A :=
  omap (fun i => col !! i) idx.

(** The joined table: the name columns and the numeric ones. *)
Record Joined := {
  j_Country : list obj;
  j_Country_norm : list pystr;
  j_num : NumFrame
}.

(** Labels after the merge and [.rename(columns={y_col: "Y_value"})]: a
    label present on both sides gets the suffixes [_x] and [_y] and is
    then no longer renamed. *)
Definition left_label (y_col c : string) : string :=
  if decide (c = y_col) then (c +:+ "_x")%string else c.

Definition right_label (mbti : NumFrame) (y_col : string) : string :=
  if bool_decide (y_col ∈ mbti.*1) then (y_col +:+ "_y")%string else "Y_value".

(** Lines 144-150, for the personality names [names] with keys [lk] and
    numeric columns [mbti], and the economic keys [rk] with the selected
    column [ys] labelled [y_col]. *)
Definition join (names : list obj) (lk : list pystr) (mbti : NumFrame)
    (rk : list pystr) (y_col : string) (ys : list float) : outcome Joined :=
  let* idx := merge_indexer lk rk in
  Ok {| j_Country := take_rows names idx.*1;
        j_Country_norm := take_rows lk idx.*1;
        j_num :=
          map (fun cx => (left_label y_col cx.1, take_rows cx.2 idx.*1)) mbti
          ++ [(right_label mbti y_col, take_rows ys idx.*2)] |}.

(** Lines 153-160: the unmatched names and the three counts shown. *)
Record MatchReport := {
  miss_mbti : gset pystr;
  miss_gnp : gset pystr;
  n_mbti : nat;
  n_gnp : nat;
  n_matched : nat
}.

(** [len(set(col))], which is [col.nunique()] on a column of strings. *)
Definition nunique (col : list pystr) : nat :=
  size (list_to_set col : gset pystr).

Definition match_report (lk rk jk : list pystr) : MatchReport :=
  {| miss_mbti := list_to_set lk ∖ list_to_set jk;
     miss_gnp := list_to_set rk ∖ list_to_set jk;
     n_mbti := nunique lk;
     n_gnp := nunique rk;
     n_matched := nunique jk |}.

(** ** Sample tables *)


Definition sample_names : list obj :=
  [OStr (py "South Korea"); OStr (py " Japan"); OStr (py "Chile")].

Definition sample_lk : list pystr := normalize_country_name sample_names.

Definition sample_rk : list pystr :=
  normalize_country_name
    [OStr (py "Korea, Republic of"); OStr (py "Japan"); OStr (py "Peru")].

(** ** Table of correlations (lines 162-179) *)

(** The new label of column [c] under the mapping [m] of [rename]. *)
Fixpoint rename_label (m : list (string * string)) (c : string) : string :=
  match m with
  | [] => c
  | (k, v) :: m' => if decide (c = k) then v else rename_label m' c
  end.

(** [df.rename(columns=m)]: every label that is a key of [m] is replaced
    by its value, all labels at once; a key that is no label is ignored.
    The result is a new table. *)
Definition rename (m : list (string * string)) (df : NumFrame) : NumFrame :=
  map (fun cx => (rename_label m cx.1, cx.2)) df.

Section Table.

Variables pearsonr spearmanr : list float -> list float -> float * float.

(** Lines 163-175: the optional transform, then the correlations on the
    relabelled table. *)
Definition corr_table (log_scale : bool) (y_col : string)
    (mbti_cols : list string) (df_join : NumFrame) : outcome (list CorrRow) :=
  let* t := log_transform log_scale df_join in
  let y_for_corr := t.2 in
  compute_correlations pearsonr spearmanr
    (rename [("Y_value", y_col); ("Y_trans", y_for_corr)] t.1)
    mbti_cols y_for_corr.

(** Lines 163-179: the table as it is shown. *)
Definition table_section (log_scale use_abs_sort : bool) (y_col : string)
    (mbti_cols : list string) (df_join : NumFrame) : outcome (list CorrRow) :=
  let* corr_df := corr_table log_scale y_col mbti_cols df_join in
  corr_df_display use_abs_sort corr_df.

(** Lines 208-215: the loop that fills [pearson_vals] for the heat map. *)
Fixpoint pearson_vals (df_join : NumFrame) (mbti_cols : list string)
    (y_for_corr : string) : outcome (list float) :=
  match mbti_cols with
  | [] => Ok []
  | c :: rest =>
      let* sub0 := getitem2 df_join c y_for_corr in
      let sub := dropna sub0 in
      let r := if (3 <=? length sub)%nat
               then (pearsonr sub.*1 sub.*2).1 else NaN in
      let* vals := pearson_vals df_join rest y_for_corr in
      Ok (r :: vals)
  end.

(** What lines 239-264 compute for the selected column: a warning, or
    the figures printed under the plot. *)
Inductive ScatterOut :=
  | Warning
  | Figures (pr pp sr sp : float) (n : nat).

(** [pd.notna] on a name cell. *)
Definition obj_notna (o : obj) : bool :=
  match o with
  | OStr _ => true
  | ONaN => false
  end.

(** [df_join[["Country", target_mbti, y_for_corr]].dropna()], then the
    test of line 242 and the statistics of lines 258-259 (the drawing of
    the plot in between is left out). *)
Definition scatter_stats (countries : list obj) (df_join : NumFrame)
    (target_mbti y_for_corr : string) : outcome ScatterOut :=
  let* sub := getitem2 df_join target_mbti y_for_corr in
  let scatter_df :=
    filter (fun r => obj_notna r.1 = true /\ row_valid r.2 = true)
      (zip countries sub) in
  if (length scatter_df <? 3)%nat then Ok Warning
  else
    let pr := pearsonr scatter_df.*2.*1 scatter_df.*2.*2 in
    let sr := spearmanr scatter_df.*2.*1 scatter_df.*2.*2 in
    Ok (Figures pr.1 pr.2 sr.1 sr.2 (length scatter_df)).

(** The figures of a row of the correlation table, as the scatter section
    would print them. *)
Definition figures_of_row (r : CorrRow) : ScatterOut :=
  if (n r <? 3)%nat then Warning
  else Figures (pearson_r r) (pearson_p r) (spearman_r r) (spearman_p r) (n r).

End Table.

(** ** Order of the displayed rows *)

(** [y <= x] on cells that are not missing. *)
Definition float_le (y x : float) : Prop :=
  match y, x with
  | NaN, _ | _, NaN => False
  | NInf, _ => True
  | _, PInf => True
  | Fin a, Fin b => (a <= b)%R
  | _, _ => False
  end.

(** The cell [x] may stand above the cell [y] in a column sorted in
    descending order with the missing cells last. *)
Definition num_above (x y : float) : Prop :=
  y = NaN \/ (x <> NaN /\ float_le y x).

Definition shown_above (a b : CorrRow) : Prop :=
  num_above (pearson_r a) (pearson_r b).

(** A row whose coefficient is missing. *)
Definition nan_row : CorrRow :=
  {| MBTI := "ENTP"; pearson_r := NaN; pearson_p := NaN;
     spearman_r := NaN; spearman_p := NaN; n := 2 |}.

(** Every key of the table is in whitespace normal form and is looked up
    to its own value (no key occurs twice). *)
Definition key_is_exact (kv : pystr * pystr) : bool :=
  ws_normal kv.1 && bool_decide (dict_get repl kv.1 = Some kv.2).

(** Two name cells with the same words. *)
Definition same_words (a b : obj) : Prop :=
  words (astype_str a) = words (astype_str b).

(** The personality table has the column [Country] and the economic table
    a column whose lower-cased label is an indicator name. *)
Definition checks_pass (df_mbti df_gnp : Frame) : Prop :=
  is_Some (Country df_mbti)
  /\ exists c, c ∈ columns df_gnp /\ str_lower c ∈ indicator_names.

(** * Properties *)

(** ** Whitespace steps *)

Section Whitespace.

Implicit Types (l r : pystr) (c : N) (b : bool).

Lemma lstrip_starts_ok l : starts_ok (lstrip l) = true.
Proof.
  induction l as [|c r IH]; simpl; [reflexivity|].
  destruct (isspace c) eqn:E; [exact IH|]. simpl. now rewrite E.
Qed.

Lemma rstrip_cons_nonws c r :
  isspace c = false -> rstrip (c :: r) = c :: rstrip r.
Proof. intros E. simpl. rewrite E. now destruct (rstrip r). Qed.

Lemma ends_ok_cons c l : l <> [] -> ends_ok (c :: l) = ends_ok l.
Proof. destruct l; [congruence|reflexivity]. Qed.

Lemma rstrip_ends_ok l : ends_ok (rstrip l) = true.
Proof.
  induction l as [|c r IH]; simpl; [reflexivity|].
  destruct (rstrip r) as [|d r'] eqn:E.
  - destruct (isspace c) eqn:Ec; simpl; [reflexivity|now rewrite Ec].
  - rewrite ends_ok_cons by discriminate. exact IH.
Qed.

Lemma rstrip_starts_ok l : starts_ok l = true -> starts_ok (rstrip l) = true.
Proof.
  destruct l as [|c r]; [reflexivity|]. intros H. simpl in H.
  apply negb_true_iff in H. rewrite rstrip_cons_nonws by exact H.
  simpl. now rewrite H.
Qed.

Lemma lstrip_fix l : starts_ok l = true -> lstrip l = l.
Proof.
  destruct l as [|c r]; [reflexivity|]. simpl. intros H.
  apply negb_true_iff in H. now rewrite H.
Qed.

Lemma rstrip_fix l : ends_ok l = true -> rstrip l = l.
Proof.
  induction l as [|c r IH]; [reflexivity|].
  destruct r as [|d r'].
  - simpl. intros H. apply negb_true_iff in H. now rewrite H.
  - intros H. rewrite ends_ok_cons in H by discriminate.
    specialize (IH H). change (rstrip (c :: d :: r')) with
      (match rstrip (d :: r') with
       | [] => if isspace c then [] else [c]
       | r'' => c :: r''
       end).
    now rewrite IH.
Qed.

Lemma re_sub_ws_true_starts_ok l : starts_ok (re_sub_ws true l) = true.
Proof.
  induction l as [|c r IH]; simpl; [reflexivity|].
  destruct (isspace c) eqn:E; [exact IH|]. simpl. now rewrite E.
Qed.

Lemma isspace_SPACE : isspace SPACE = true.
Proof. reflexivity. Qed.

Lemma re_sub_ws_single_spaces b l : single_spaces (re_sub_ws b l) = true.
Proof.
  revert b. induction l as [|c r IH]; intros b; simpl; [reflexivity|].
  destruct (isspace c) eqn:E.
  - destruct b; [apply IH|].
    simpl. rewrite re_sub_ws_true_starts_ok, IH. reflexivity.
  - simpl. now rewrite E, IH.
Qed.

Lemma re_sub_ws_starts_ok b l :
  starts_ok l = true -> starts_ok (re_sub_ws b l) = true.
Proof.
  destruct l as [|c r]; [reflexivity|]. simpl. intros H.
  apply negb_true_iff in H. rewrite H. simpl. now rewrite H.
Qed.

Lemma re_sub_ws_nonempty b l :
  ends_ok l = true -> l <> [] -> re_sub_ws b l <> [].
Proof.
  revert b. induction l as [|c r IH]; intros b He Hn; [congruence|].
  simpl. destruct (isspace c) eqn:E; [|discriminate].
  destruct r as [|d r'].
  - simpl in He. rewrite E in He. discriminate.
  - rewrite ends_ok_cons in He by discriminate.
    destruct b; [|discriminate]. apply IH; [exact He|discriminate].
Qed.

Lemma re_sub_ws_ends_ok b l :
  ends_ok l = true -> ends_ok (re_sub_ws b l) = true.
Proof.
  revert b. induction l as [|c r IH]; intros b He; [reflexivity|].
  destruct r as [|d r'].
  - simpl in He. apply negb_true_iff in He. simpl. rewrite He. simpl.
    now rewrite He.
  - rewrite ends_ok_cons in He by discriminate.
    assert (Hne : forall b', re_sub_ws b' (d :: r') <> []).
    { intros b'. apply re_sub_ws_nonempty; [exact He|discriminate]. }
    change (re_sub_ws b (c :: d :: r')) with
      (if isspace c
       then (if b then re_sub_ws true (d :: r')
             else SPACE :: re_sub_ws true (d :: r'))
       else c :: re_sub_ws false (d :: r')).
    destruct (isspace c); [destruct b|];
      rewrite ?ends_ok_cons by apply Hne; apply IH; exact He.
Qed.

Lemma re_sub_ws_fix b l :
  single_spaces l = true -> (b = true -> starts_ok l = true) ->
  re_sub_ws b l = l.
Proof.
  revert b. induction l as [|c r IH]; intros b Hs Hb; [reflexivity|].
  simpl in Hs. apply andb_true_iff in Hs as [Hc Hr]. simpl.
  destruct (isspace c) eqn:E.
  - apply andb_true_iff in Hc as [Hc Hst]. apply N.eqb_eq in Hc. subst c.
    destruct b.
    + specialize (Hb eq_refl). unfold starts_ok in Hb. rewrite E in Hb.
      discriminate.
    + f_equal. apply IH; [exact Hr|]. intros _. exact Hst.
  - f_equal. apply IH; [exact Hr|]. discriminate.
Qed.

(** The whitespace steps of line 28 produce a string in normal form. *)
Lemma collapse_strip_normal l : ws_normal (collapse (strip l)) = true.
Proof.
  unfold ws_normal, collapse, strip.
  assert (Hs : starts_ok (rstrip (lstrip l)) = true)
    by (apply rstrip_starts_ok, lstrip_starts_ok).
  assert (He : ends_ok (rstrip (lstrip l)) = true) by apply rstrip_ends_ok.
  rewrite re_sub_ws_starts_ok, re_sub_ws_ends_ok, re_sub_ws_single_spaces
    by assumption.
  reflexivity.
Qed.

(** A string in normal form is left alone by them. *)
Lemma collapse_strip_fix l : ws_normal l = true -> collapse (strip l) = l.
Proof.
  unfold ws_normal, collapse, strip. intros H.
  apply andb_true_iff in H as [H Hss]. apply andb_true_iff in H as [Hs He].
  rewrite lstrip_fix, rstrip_fix by assumption.
  apply re_sub_ws_fix; [exact Hss|discriminate].
Qed.

End Whitespace.

(** ** The whitespace steps against [split] and [join] *)

Section Words.

Implicit Types (l r cur : pystr) (c : N).

Lemma rstrip_nil_iff l : rstrip l = [] <-> forallb isspace l = true.
Proof.
  induction l as [|c r IH]; simpl; [tauto|].
  destruct (rstrip r) as [|d r'] eqn:E.
  - destruct (isspace c) eqn:Ec; simpl.
    + split; intros _; [now apply IH|reflexivity].
    + split; discriminate.
  - split; [discriminate|]. intros H. apply andb_true_iff in H as [_ H].
    apply IH in H. discriminate.
Qed.

Lemma split_ws_cur_nonnil cur l : cur <> [] -> split_ws cur l <> [].
Proof.
  revert cur. induction l as [|c r IH]; intros cur Hc; simpl.
  - destruct cur; [congruence|discriminate].
  - destruct (isspace c).
    + destruct cur; [congruence|discriminate].
    + apply IH. discriminate.
Qed.

Lemma split_ws_nil_iff l : split_ws [] l = [] <-> forallb isspace l = true.
Proof.
  induction l as [|c r IH]; simpl; [tauto|].
  destruct (isspace c) eqn:Ec; simpl; [exact IH|].
  split; [|discriminate]. intros H.
  exfalso. revert H. apply split_ws_cur_nonnil. discriminate.
Qed.

Lemma join_space_cons w ws :
  ws <> [] -> join_space (w :: ws) = w ++ SPACE :: join_space ws.
Proof. destruct ws; [congruence|reflexivity]. Qed.

Lemma re_sub_ws_rstrip l :
  (forall cur, cur <> [] ->
     join_space (split_ws cur l) = rev cur ++ re_sub_ws false (rstrip l))
  /\ join_space (split_ws [] l) = re_sub_ws true (rstrip l).
Proof.
  induction l as [|c r [IH1 IH2]].
  - split; [|reflexivity]. intros cur Hc. simpl.
    destruct cur; [congruence|]. simpl. now rewrite app_nil_r.
  - destruct (isspace c) eqn:Ec.
    + assert (Hr : rstrip (c :: r) =
                   match rstrip r with [] => [] | _ => c :: rstrip r end).
      { simpl. rewrite Ec. now destruct (rstrip r). }
      split.
      * intros cur Hc. simpl split_ws. rewrite Ec.
        replace (match cur with [] => split_ws [] r
                 | _ :: _ => rev cur :: split_ws [] r end)
          with (rev cur :: split_ws [] r) by (destruct cur; congruence).
        rewrite Hr. destruct (rstrip r) as [|d r'] eqn:E.
        -- apply rstrip_nil_iff, split_ws_nil_iff in E. rewrite E. simpl.
           now rewrite app_nil_r.
        -- assert (Hn : split_ws [] r <> []).
           { intros H. apply split_ws_nil_iff, rstrip_nil_iff in H.
             congruence. }
           rewrite join_space_cons by exact Hn. rewrite IH2.
           simpl. now rewrite Ec.
      * simpl split_ws. rewrite Ec, Hr, IH2.
        destruct (rstrip r) as [|d r'] eqn:E; [reflexivity|].
        simpl. now rewrite Ec.
    + rewrite rstrip_cons_nonws by exact Ec. split.
      * intros cur Hc. simpl split_ws. rewrite Ec.
        rewrite IH1 by discriminate. simpl. rewrite Ec.
        now rewrite <- app_assoc.
      * simpl split_ws. rewrite Ec. rewrite IH1 by discriminate.
        simpl. now rewrite Ec.
Qed.

Lemma words_lstrip l : words (lstrip l) = words l.
Proof.
  unfold words. induction l as [|c r IH]; [reflexivity|].
  simpl. destruct (isspace c) eqn:Ec; [exact IH|].
  simpl. now rewrite Ec.
Qed.

(** Line 28 computes [" ".join(x.split())]. *)
Lemma collapse_strip_words l : collapse (strip l) = join_space (words l).
Proof.
  rewrite <- words_lstrip. unfold collapse, strip, words.
  pose proof (lstrip_starts_ok l) as Hs.
  destruct (lstrip l) as [|c r]; [reflexivity|].
  simpl in Hs. apply negb_true_iff in Hs.
  rewrite rstrip_cons_nonws by exact Hs. simpl. rewrite Hs.
  destruct (re_sub_ws_rstrip r) as [H1 _].
  now rewrite (H1 [c]) by discriminate.
Qed.

End Words.

(** ** The alias table *)

Lemma dict_get_alias_table x : dict_get repl x = alias_table !! x.
Proof.
  unfold alias_table. induction repl as [|[k v] d IH]; [reflexivity|].
  simpl. destruct (decide (x = k)) as [->|Hne].
  - now rewrite lookup_insert_eq.
  - rewrite lookup_insert_ne by congruence. exact IH.
Qed.


Lemma repl_values_final : forallb value_is_final repl = true.
Proof. vm_compute. reflexivity. Qed.

Lemma dict_get_In d x v : dict_get d x = Some v -> In (x, v) d.
Proof.
  induction d as [|[k w] d IH]; simpl; [discriminate|].
  destruct (decide (x = k)) as [->|_].
  - intros [= ->]. now left.
  - intros H. right. now apply IH.
Qed.

Lemma repl_value_final x v :
  dict_get repl x = Some v ->
  ws_normal v = true /\ dict_get repl v = None.
Proof.
  intros H. apply dict_get_In in H.
  pose proof repl_values_final as F. rewrite forallb_forall in F.
  specialize (F _ H). unfold value_is_final in F. simpl in F.
  apply andb_true_iff in F as [F1 F2]. apply bool_decide_eq_true in F2.
  split; assumption.
Qed.

Lemma normalize_name_normal o :
  ws_normal (normalize_name o) = true
  /\ dict_get repl (normalize_name o) = None.
Proof.
  unfold normalize_name, replace_value, base_name.
  destruct (dict_get repl (collapse (strip (astype_str o)))) as [v|] eqn:E.
  - exact (repl_value_final _ _ E).
  - split; [apply collapse_strip_normal|exact E].
Qed.

Lemma normalize_name_idempotent o :
  normalize_name (OStr (normalize_name o)) = normalize_name o.
Proof.
  destruct (normalize_name_normal o) as [Hn Hk].
  unfold normalize_name at 1. unfold base_name. simpl astype_str.
  rewrite collapse_strip_fix by exact Hn.
  unfold replace_value. now rewrite Hk.
Qed.

(** C6: name normalization is idempotent: normalizing the column of
    already-normalized names gives the same column, for every input
    column. *)
Theorem normalize_country_name_idempotent (s : list obj) :
  normalize_country_name (map OStr (normalize_country_name s))
  = normalize_country_name s.
Proof.
  unfold normalize_country_name. rewrite !map_map.
  apply map_ext. intros o. apply normalize_name_idempotent.
Qed.

Lemma normalize_name_spec o : normalize_name o = spec_normalize_name o.
Proof.
  unfold normalize_name, spec_normalize_name, replace_value, base_name.
  rewrite collapse_strip_words, dict_get_alias_table.
  now destruct (alias_table !! _).
Qed.

(** C8: the normalizer returns a column of the same length and order whose
    elements are the input names with surrounding whitespace removed,
    inner whitespace runs collapsed to one space and the alias table
    applied; "South Korea" becomes "Korea, Republic of", and a name that
    is no key of the table is returned as its whitespace-cleaned form. *)
Theorem normalize_country_name_spec (s : list obj) :
  length (normalize_country_name s) = length s
  /\ normalize_country_name s = map spec_normalize_name s
  /\ (forall i o, s !! i = Some o ->
        normalize_country_name s !! i
        = Some (replace_value repl (collapse (strip (astype_str o)))))
  /\ normalize_name (OStr (py "  South 	 Korea ")) = py "Korea, Republic of"
  /\ (forall o, alias_table !! join_space (words (astype_str o)) = None ->
        normalize_name o = join_space (words (astype_str o))
        /\ ws_normal (normalize_name o) = true).
Proof.
  split; [|split; [|split; [|split]]].
  - unfold normalize_country_name. now rewrite length_map.
  - unfold normalize_country_name. apply map_ext, normalize_name_spec.
  - intros i o H. unfold normalize_country_name.
    rewrite list_lookup_fmap, H. reflexivity.
  - vm_compute. reflexivity.
  - intros o H. split.
    + rewrite normalize_name_spec. unfold spec_normalize_name. now rewrite H.
    + apply normalize_name_normal.
Qed.

Lemma normalize_country_name_spec_witness :
  let s := [OStr (py " Republic  of Korea "); ONaN] in
  normalize_country_name s !! 0%nat = Some (py "Republic of Korea")
  /\ normalize_name ONaN = py "nan".
Proof.
  destruct (normalize_country_name_spec
              [OStr (py " Republic  of Korea "); ONaN])
    as (_ & _ & Hi & _ & Hp).
  split.
  - rewrite (Hi 0%nat _ eq_refl). vm_compute. reflexivity.
  - apply (Hp ONaN). vm_compute. reflexivity.
Defined.

(** ** Correlation engine *)

Section CorrelationProps.

Variables pearsonr spearmanr : list float -> list float -> float * float.

Local Abbreviation compute := (compute_correlations pearsonr spearmanr).
Local Abbreviation row := (corr_row pearsonr spearmanr).

Lemma has_columns_cons df c cs :
  has_columns df (c :: cs) = true ->
  is_Some (getcol df c) /\ has_columns df cs = true.
Proof.
  unfold has_columns. simpl. intros H.
  apply andb_true_iff in H as [H1 H2].
  apply bool_decide_eq_true in H1. split; assumption.
Qed.

Lemma getitem2_ok df c y :
  is_Some (getcol df c) -> is_Some (getcol df y) ->
  exists xs ys, getcol df c = Some xs /\ getcol df y = Some ys
                /\ getitem2 df c y = Ok (zip xs ys).
Proof.
  intros [xs Hx] [ys Hy]. exists xs, ys. unfold getitem2.
  rewrite Hx, Hy. auto.
Qed.

(** With every requested label present the loop runs to its end and
    yields the rows of the requested columns, in order. *)
Lemma compute_correlations_ok df cols y :
  has_columns df (y :: cols) = true ->
  compute df cols y = Ok (map (fun c => row c (valid_rows df c y)) cols).
Proof.
  intros H. apply has_columns_cons in H as [Hy H].
  induction cols as [|c cols IH]; [reflexivity|].
  apply has_columns_cons in H as [Hc H]. simpl.
  destruct (getitem2_ok df c y Hc Hy) as (xs & ys & _ & _ & E).
  unfold valid_rows. rewrite E. simpl. rewrite (IH H). reflexivity.
Qed.

(** A missing label makes the call raise [KeyError]. *)
Lemma compute_correlations_keyerror df c cols y :
  getcol df c = None ->
  compute df (c :: cols) y = Raise (KeyError c).
Proof. intros H. simpl. unfold getitem2. now rewrite H. Qed.

Lemma corr_row_label c sub : MBTI (row c sub) = c.
Proof. unfold corr_row. now destruct (length sub <? 3)%nat. Qed.

Lemma corr_row_n c sub : n (row c sub) = length sub.
Proof. unfold corr_row. now destruct (length sub <? 3)%nat. Qed.

Lemma valid_rows_empty df c y : getcol df y = Some [] -> valid_rows df c y = [].
Proof.
  intros Hy. unfold valid_rows, getitem2. rewrite Hy.
  destruct (getcol df c) as [xs|]; [|reflexivity].
  now destruct xs.
Qed.

(** C10: for every joined table and every list of its personality-type
    columns, [compute_correlations] returns one row per requested column,
    in the order of the request, each recording the number of rows left
    after dropping the missing ones; on a table without rows every sample
    size is 0. *)
Theorem compute_correlations_one_row_per_column
    (df : NumFrame) (mbti_cols : list string) (y_col : string) :
  has_columns df (y_col :: mbti_cols) = true ->
  exists rows,
    compute df mbti_cols y_col = Ok rows
    /\ length rows = length mbti_cols
    /\ map MBTI rows = mbti_cols
    /\ map n rows = map (fun c => length (valid_rows df c y_col)) mbti_cols
    /\ (getcol df y_col = Some [] -> Forall (fun r => n r = 0%nat) rows).
Proof.
  intros H. eexists. split; [apply compute_correlations_ok, H|].
  repeat split.
  - now rewrite length_map.
  - rewrite map_map. rewrite <- (map_id mbti_cols) at 2.
    apply map_ext. intros c. apply corr_row_label.
  - rewrite map_map. apply map_ext. intros c. apply corr_row_n.
  - intros Hy. apply Forall_forall. intros r Hr.
    apply list_elem_of_In, in_map_iff in Hr as (c & <- & _).
    rewrite corr_row_n, valid_rows_empty by exact Hy. reflexivity.
Qed.

Lemma corr_row_as_specified c sub :
  row_as_specified pearsonr spearmanr c sub (row c sub).
Proof.
  unfold row_as_specified, corr_row.
  destruct (Nat.ltb_spec (length sub) 3) as [Hlt|Hge]; simpl.
  - split; [reflexivity|]. split; [reflexivity|]. split.
    + intros _. auto.
    + intros Hge. exfalso.
      apply (Nat.lt_irrefl 3). eapply Nat.le_lt_trans; eassumption.
  - split; [reflexivity|]. split; [reflexivity|]. split.
    + intros Hlt. exfalso.
      apply (Nat.lt_irrefl 3). eapply Nat.le_lt_trans; eassumption.
    + intros _. split.
      * now destruct (pearsonr sub.*1 sub.*2).
      * now destruct (spearmanr sub.*1 sub.*2).
Qed.

(** C4: in one pass over the requested columns, [compute_correlations]
    does not raise; a column left with fewer than 3 valid rows gets [NaN]
    for both coefficients and both p-values together with its actual
    sample size, and every column with at least 3 valid rows gets the
    values of [pearsonr] and [spearmanr] on its valid rows. *)
Theorem compute_correlations_small_sample
    (df : NumFrame) (mbti_cols : list string) (y_col : string) :
  has_columns df (y_col :: mbti_cols) = true ->
  exists rows,
    compute df mbti_cols y_col = Ok rows
    /\ Forall2 (fun c r =>
                   row_as_specified pearsonr spearmanr c
                     (valid_rows df c y_col) r)
         mbti_cols rows.
Proof.
  intros H. eexists. split; [apply compute_correlations_ok, H|].
  clear H. induction mbti_cols as [|c cols IH]; simpl; constructor.
  - apply corr_row_as_specified.
  - exact IH.
Qed.

End CorrelationProps.

Lemma compute_correlations_one_row_per_column_witness :
  exists rows,
    compute_correlations (const_stat NaN NaN) (const_stat NaN NaN)
      sample_join ["INFP"; "ESTJ"] "Y_trans" = Ok rows
    /\ map MBTI rows = ["INFP"; "ESTJ"]
    /\ map n rows = [2; 3]%nat.
Proof.
  destruct (compute_correlations_one_row_per_column
              (const_stat NaN NaN) (const_stat NaN NaN)
              sample_join ["INFP"; "ESTJ"] "Y_trans" eq_refl)
    as (rows & H & _ & Hl & Hn & _).
  exists rows. repeat split; [exact H|exact Hl|].
  rewrite Hn. reflexivity.
Defined.

Lemma compute_correlations_small_sample_witness :
  exists r1 r2,
    compute_correlations (const_stat (Fin 1) (Fin 0)) (const_stat (Fin 1) (Fin 0))
      sample_join ["INFP"; "ESTJ"] "Y_trans" = Ok [r1; r2]
    /\ pearson_r r1 = NaN /\ n r1 = 2%nat
    /\ pearson_r r2 = Fin 1 /\ n r2 = 3%nat.
Proof.
  destruct (compute_correlations_small_sample
              (const_stat (Fin 1) (Fin 0)) (const_stat (Fin 1) (Fin 0))
              sample_join ["INFP"; "ESTJ"] "Y_trans" eq_refl)
    as (rows & H & F).
  inversion F as [|c1 r1 cs1 rs1 (_ & Hn1 & Hs1 & _) F1]; subst.
  inversion F1 as [|c2 r2 cs2 rs2 (_ & Hn2 & _ & Hb2) F2]; subst.
  inversion F2; subst.
  exists r1, r2. split; [exact H|].
  destruct Hs1 as (Hp1 & _); [simpl; repeat constructor|].
  destruct Hb2 as (Hp2 & _); [simpl; repeat constructor|].
  repeat split; [exact Hp1|exact Hn1| |exact Hn2].
  simpl in Hp2. unfold const_stat in Hp2. congruence.
Defined.

(** ** Log transform *)

Lemma getcol_setcol_eq df c xs : getcol (setcol df c xs) c = Some xs.
Proof.
  induction df as [|[c' ys] df IH]; simpl.
  - now rewrite decide_True.
  - destruct (decide (c = c')) as [->|Hne]; simpl.
    + now rewrite decide_True.
    + now rewrite decide_False.
Qed.

Lemma getcol_setcol_ne df c c' xs :
  c <> c' -> getcol (setcol df c' xs) c = getcol df c.
Proof.
  intros Hne. induction df as [|[d ys] df IH]; simpl.
  - now rewrite decide_False.
  - destruct (decide (c' = d)) as [->|Hd]; simpl.
    + now rewrite !decide_False.
    + destruct (decide (c = d)); [reflexivity|exact IH].
Qed.








(** ** Display order *)

Lemma insert_desc_Permutation key r l :
  Permutation (insert_desc key r l) (r :: l).
Proof.
  induction l as [|r' l IH]; simpl; [reflexivity|].
  destruct (stays_before (key r) (key r')); [reflexivity|].
  rewrite IH. apply perm_swap.
Qed.

Lemma sort_desc_Permutation key l : Permutation (sort_desc key l) l.
Proof.
  induction l as [|r l IH]; simpl; [reflexivity|].
  rewrite insert_desc_Permutation. now constructor.
Qed.

(** The displayed table holds the computed rows, each with its values
    unchanged, whatever the sort mode. *)
Lemma corr_df_display_Permutation use_abs_sort corr_df shown :
  corr_df_display use_abs_sort corr_df = Ok shown ->
  Permutation shown corr_df.
Proof.
  unfold corr_df_display, sort_values_desc.
  destruct corr_df as [|r l]; [discriminate|]. simpl bind.
  replace (name (if use_abs_sort then Series_abs _ else _)) with "pearson_r"
    by (now destruct use_abs_sort).
  simpl. intros [= <-]. apply (sort_desc_Permutation _ (r :: l)).
Qed.

(** The sort mode has no effect on the displayed order. *)
Lemma corr_df_display_mode_ignored use_abs_sort corr_df :
  corr_df_display use_abs_sort corr_df = corr_df_display false corr_df.
Proof.
  unfold corr_df_display. destruct corr_df as [|r l]; [reflexivity|].
  now destruct use_abs_sort.
Qed.

Lemma R_ltb_true x y : (x < y)%R -> R_ltb x y = true.
Proof. intros H. unfold R_ltb. now destruct (Rlt_dec x y). Qed.

Lemma R_ltb_false x y : (y <= x)%R -> R_ltb x y = false.
Proof.
  intros H. unfold R_ltb. destruct (Rlt_dec x y) as [Hlt|]; [|reflexivity].
  exfalso. apply (Rlt_irrefl x). eapply Rlt_le_trans; eassumption.
Qed.

(** C5 at the failing input: with the magnitude sort selected and Pearson
    coefficients 0.1 and -0.9, the page shows the row of 0.1 first (the
    signed order), while the order by magnitude puts the row of -0.9
    first. *)
Theorem corr_df_display_not_by_magnitude :
  corr_df_display true [weak_row; strong_negative_row]
    = Ok [weak_row; strong_negative_row]
  /\ sort_by_magnitude [weak_row; strong_negative_row]
    = [strong_negative_row; weak_row].
Proof.
  split.
  - unfold corr_df_display, sort_values_desc. simpl.
    rewrite R_ltb_false by lra. reflexivity.
  - unfold sort_by_magnitude. simpl.
    rewrite R_ltb_true; [reflexivity|].
    rewrite Rabs_pos_eq by lra. rewrite Rabs_left by lra. lra.
Qed.

(** ** Column checks *)

Lemma select_candidate_y_sample : select_candidate_y gnp_without_country = ["GNP"].
Proof. vm_compute. reflexivity. Qed.




(** ** Join *)

Lemma index_of_Some k rk j : index_of k rk = Some j -> rk !! j = Some k.
Proof.
  revert j. induction rk as [|k' rk IH]; intros j; simpl; [discriminate|].
  destruct (decide (k = k')) as [->|_].
  - now intros [= <-].
  - destruct (index_of k rk) as [j'|]; [|discriminate].
    intros [= <-]. now apply IH.
Qed.

Lemma index_of_None k rk : index_of k rk = None <-> k ∉ rk.
Proof.
  induction rk as [|k' rk IH]; simpl.
  - split; [intros _; apply not_elem_of_nil|reflexivity].
  - rewrite not_elem_of_cons. destruct (decide (k = k')) as [->|Hne].
    + split; [discriminate|]. now intros [[] _].
    + destruct (index_of k rk); simpl.
      * split; [discriminate|]. intros [_ H]. now apply IH in H.
      * split; [|reflexivity]. intros _. split; [exact Hne|]. now apply IH.
Qed.

(** The joined rows are the left rows whose key occurs on the right, in
    the order of the left table. *)
Lemma take_rows_match_rows pre lk rk :
  take_rows (pre ++ lk) (match_rows (length pre) lk rk).*1
  = filter (.∈ rk) lk.
Proof.
  revert pre. induction lk as [|k lk IH]; intros pre; [reflexivity|].
  simpl match_rows.
  specialize (IH (pre ++ [k])). rewrite <- app_assoc, length_app in IH.
  simpl in IH. rewrite Nat.add_1_r in IH.
  destruct (index_of k rk) as [j|] eqn:E.
  - rewrite filter_cons_True
      by (apply index_of_Some in E; eapply list_elem_of_lookup_2, E).
    unfold take_rows in *. simpl.
    rewrite list_lookup_middle by reflexivity. simpl. f_equal. exact IH.
  - rewrite filter_cons_False by (now apply index_of_None). exact IH.
Qed.

Lemma join_Ok names lk mbti rk y_col ys j :
  join names lk mbti rk y_col ys = Ok j ->
  NoDup rk /\ j_Country_norm j = filter (.∈ rk) lk.
Proof.
  unfold join, merge_indexer. case_bool_decide as Hnd; [|discriminate].
  simpl. intros [= <-]. split; [exact Hnd|]. simpl.
  apply (take_rows_match_rows [] lk rk).
Qed.


(** C3: when two rows of the economic table normalize to the same name,
    the join raises the merge error of the many-to-one check and returns
    no joined table, whatever the other inputs are. *)
Theorem join_duplicate_key (names gnames : list obj) (lk : list pystr)
    (mbti : NumFrame) (y_col : string) (ys : list float)
    (i j : nat) (k : pystr) :
  i <> j ->
  normalize_country_name gnames !! i = Some k ->
  normalize_country_name gnames !! j = Some k ->
  join names lk mbti (normalize_country_name gnames) y_col ys
  = Raise MergeError.
Proof.
  intros Hij Hi Hj. unfold join, merge_indexer.
  rewrite bool_decide_eq_false_2; [reflexivity|].
  intros Hnd. apply Hij. exact (NoDup_lookup _ _ _ _ Hnd Hi Hj).
Qed.

Lemma join_duplicate_key_witness :
  join [OStr (py "Vietnam")] [py "Viet Nam"] [("INFP", [Fin 0.1%R])]
    (normalize_country_name [OStr (py "Vietnam"); OStr (py "Viet  Nam")])
    "GNP" [Fin 1%R; Fin 2%R]
  = Raise MergeError.
Proof.
  apply (join_duplicate_key _ _ _ _ _ _ 0%nat 1%nat (py "Viet Nam")).
  - discriminate.
  - vm_compute. reflexivity.
  - vm_compute. reflexivity.
Defined.



(** ** Missing labels *)

Section EngineProps.

Variables pearsonr spearmanr : list float -> list float -> float * float.

Local Abbreviation compute := (compute_correlations pearsonr spearmanr).

Lemma has_columns_false_inv df c cs :
  has_columns df (c :: cs) = false ->
  getcol df c = None \/ has_columns df cs = false.
Proof.
  unfold has_columns. simpl. intros H.
  apply andb_false_iff in H as [H|H]; [left|now right].
  apply bool_decide_eq_false in H.
  destruct (getcol df c); [|reflexivity]. exfalso. apply H. eauto.
Qed.

Lemma has_columns_elem df cs c :
  has_columns df cs = true -> c ∈ cs -> is_Some (getcol df c).
Proof.
  unfold has_columns. rewrite forallb_forall. intros H Hc.
  apply list_elem_of_In in Hc. apply H in Hc.
  now apply bool_decide_eq_true in Hc.
Qed.

Lemma compute_correlations_raise df cols y :
  cols <> [] ->
  has_columns df (y :: cols) = false ->
  exists l, compute df cols y = Raise (KeyError l)
            /\ l ∈ y :: cols /\ getcol df l = None.
Proof.
  induction cols as [|c cols IH]; [done|]. intros _ H. simpl.
  unfold getitem2.
  destruct (getcol df c) as [xs|] eqn:Ec.
  2:{ exists c. split; [reflexivity|]. split; [|exact Ec].
      rewrite !elem_of_cons. auto. }
  destruct (getcol df y) as [ys|] eqn:Ey.
  2:{ exists y. split; [reflexivity|]. split; [|exact Ey].
      rewrite !elem_of_cons. auto. }
  simpl.
  apply has_columns_false_inv in H as [H|H]; [congruence|].
  apply has_columns_false_inv in H as [H|H]; [congruence|].
  destruct cols as [|c' cols].
  { discriminate. }
  destruct IH as (l & E & Hl & Hn); [done| |].
  { unfold has_columns in *. simpl in *. rewrite Ey.
    rewrite bool_decide_eq_true_2 by eauto. exact H. }
  exists l. rewrite E. split; [reflexivity|]. split; [|exact Hn].
  rewrite elem_of_cons in Hl. rewrite !elem_of_cons.
  destruct Hl as [->|Hl]; [now left|]. right. right.
  now rewrite elem_of_cons in Hl.
Qed.

(** When the indicator column or a requested column is not in the table,
    [compute_correlations] raises [KeyError] for a label that is absent
    and returns no row at all, as soon as one column is requested; with
    no column requested it returns the empty table. *)
Theorem compute_correlations_missing_label
    (df : NumFrame) (mbti_cols : list string) (y_col : string) :
  has_columns df (y_col :: mbti_cols) = false ->
  (mbti_cols = [] -> compute df mbti_cols y_col = Ok [])
  /\ (mbti_cols <> [] ->
      exists l, compute df mbti_cols y_col = Raise (KeyError l)
                /\ l ∈ y_col :: mbti_cols /\ getcol df l = None).
Proof.
  intros H. split.
  - now intros ->.
  - intros Hne. now apply compute_correlations_raise.
Qed.

Lemma compute_correlations_ext df1 df2 cols y :
  (forall c, c ∈ y :: cols -> getcol df1 c = getcol df2 c) ->
  compute df1 cols y = compute df2 cols y.
Proof.
  intros H. induction cols as [|c cols IH]; [reflexivity|]. simpl.
  unfold getitem2.
  rewrite (H c) by (rewrite !elem_of_cons; auto).
  rewrite (H y) by (rewrite !elem_of_cons; auto).
  rewrite IH; [reflexivity|]. intros c' Hc'. apply H.
  rewrite elem_of_cons in Hc'. rewrite !elem_of_cons. tauto.
Qed.

(** The heat map recomputes the Pearson coefficients with the same rule as
    the table: on one table, its loop yields the [pearson_r] column of
    [compute_correlations], and fails when that one fails. *)
Theorem pearson_vals_table
    (df : NumFrame) (mbti_cols : list string) (y_for_corr : string) :
  pearson_vals pearsonr df mbti_cols y_for_corr
  = let* rows := compute df mbti_cols y_for_corr in Ok (map pearson_r rows).
Proof.
  induction mbti_cols as [|c cols IH]; [reflexivity|]. simpl.
  destruct (getitem2 df c y_for_corr) as [sub| |]; simpl; try reflexivity.
  rewrite IH. destruct (compute df cols y_for_corr); simpl; try reflexivity.
  do 2 f_equal. unfold corr_row.
  now destruct (length (dropna sub)) as [|[|[|k]]].
Qed.

End EngineProps.

Lemma compute_correlations_missing_label_witness :
  exists l,
    compute_correlations (const_stat NaN NaN) (const_stat NaN NaN)
      sample_join ["INFP"; "ISTP"] "Y_trans" = Raise (KeyError l)
    /\ getcol sample_join l = None.
Proof.
  destruct (compute_correlations_missing_label
              (const_stat NaN NaN) (const_stat NaN NaN)
              sample_join ["INFP"; "ISTP"] "Y_trans" eq_refl)
    as [_ H].
  destruct H as (l & E & _ & Hn); [discriminate|].
  exists l. split; assumption.
Defined.

(** ** Order of the displayed table *)

Lemma stays_before_num x y :
  stays_before (KNum x) (KNum y) = true <-> num_above x y.
Proof.
  unfold num_above.
  destruct x as [| | |a], y as [| | |b]; simpl;
    try (split; [intros _; now left|reflexivity]);
    try (split; [discriminate|intros [H|[H _]]; [discriminate|now elim H]]);
    try (split; [intros _; right; split; [discriminate|exact I]|reflexivity]);
    try (split; [discriminate|intros [H|[_ []]]; discriminate]).
  unfold R_ltb. destruct (Rlt_dec a b) as [Hlt|Hge]; simpl.
  - split; [discriminate|]. intros [H|[_ H]]; [discriminate|].
    exfalso. apply (Rlt_irrefl a). eapply Rlt_le_trans; eassumption.
  - split; [|reflexivity]. intros _. right. split; [discriminate|].
    now apply Rnot_lt_le.
Qed.

Lemma float_le_trans z y x : float_le z y -> float_le y x -> float_le z x.
Proof.
  destruct z, y, x; simpl; try tauto. apply Rle_trans.
Qed.

Lemma num_above_trans x y z : num_above x y -> num_above y z -> num_above x z.
Proof.
  unfold num_above. intros [->|[Hx Hyx]] [->|[Hy Hzy]]; auto.
  - now elim Hy.
  - right. split; [exact Hx|]. eapply float_le_trans; eassumption.
Qed.

Lemma num_above_total x y : num_above x y \/ num_above y x.
Proof.
  unfold num_above.
  destruct x as [| | |a], y as [| | |b]; simpl; auto;
    try (left; right; split; [discriminate|exact I]);
    try (right; right; split; [discriminate|exact I]).
  destruct (Rle_dec a b) as [Hle|Hgt].
  - right. right. split; [discriminate|exact Hle].
  - left. right. split; [discriminate|].
    apply Rlt_le. now apply Rnot_le_lt.
Qed.

Section SortedBy.

Variable f : CorrRow -> float.

Local Abbreviation key := (fun r => KNum (f r)).
Local Abbreviation above := (fun a b => num_above (f a) (f b)).

Lemma insert_desc_sorted r l :
  StronglySorted above l -> StronglySorted above (insert_desc key r l).
Proof.
  induction 1 as [|r' l Hs IH Hall].
  - simpl. repeat constructor.
  - cbn [insert_desc]. cbn beta.
    destruct (stays_before (KNum (f r)) (KNum (f r'))) eqn:E.
    + apply stays_before_num in E.
      constructor; [now constructor|]. constructor; [exact E|].
      eapply Forall_impl; [exact Hall|]. simpl. intros x Hx.
      eapply num_above_trans; eassumption.
    + assert (Hr : num_above (f r') (f r)).
      { destruct (num_above_total (f r) (f r')) as [H|H]; [|exact H].
        apply stays_before_num in H. congruence. }
      constructor; [exact IH|].
      rewrite (insert_desc_Permutation key r l). now constructor.
Qed.

Lemma sort_desc_sorted l : StronglySorted above (sort_desc key l).
Proof.
  induction l as [|r l IH]; simpl; [constructor|].
  now apply insert_desc_sorted.
Qed.

End SortedBy.

Lemma corr_df_display_Ok use_abs_sort corr_df :
  corr_df <> [] ->
  corr_df_display use_abs_sort corr_df
  = Ok (sort_desc (fun r => KNum (pearson_r r)) corr_df).
Proof.
  unfold corr_df_display, sort_values_desc.
  destruct corr_df as [|r l]; [done|]. intros _. simpl bind.
  replace (name (if use_abs_sort then Series_abs _ else _)) with "pearson_r"
    by (now destruct use_abs_sort).
  reflexivity.
Qed.

Lemma corr_df_display_nil use_abs_sort :
  corr_df_display use_abs_sort [] = Raise (KeyError "pearson_r").
Proof. reflexivity. Qed.

(** In both sort modes the displayed rows are in descending order of the
    signed Pearson coefficient, with the rows whose coefficient is missing
    at the end: every row stands above all the rows after it. *)
Theorem corr_df_display_sorted
    (use_abs_sort : bool) (corr_df shown : list CorrRow) :
  corr_df_display use_abs_sort corr_df = Ok shown ->
  StronglySorted shown_above shown.
Proof.
  destruct corr_df as [|r l]; [discriminate|].
  rewrite corr_df_display_Ok by done. intros [= <-].
  exact (sort_desc_sorted pearson_r (r :: l)).
Qed.

Lemma corr_df_display_sorted_witness :
  StronglySorted shown_above [weak_row; nan_row].
Proof.
  apply (corr_df_display_sorted true [nan_row; weak_row]). reflexivity.
Defined.

(** Sorting for display changes no value: a table with at least one row
    is shown, and the shown rows are the computed rows, each with its
    coefficients, p-values and sample size, in some order. *)
Theorem corr_df_display_keeps_rows
    (use_abs_sort : bool) (corr_df : list CorrRow) :
  corr_df <> [] ->
  exists shown,
    corr_df_display use_abs_sort corr_df = Ok shown
    /\ Permutation shown corr_df.
Proof.
  intros H. eexists. split; [now apply corr_df_display_Ok|].
  apply sort_desc_Permutation.
Qed.

Lemma corr_df_display_keeps_rows_witness :
  exists shown,
    corr_df_display false [nan_row; weak_row] = Ok shown
    /\ Permutation shown [nan_row; weak_row].
Proof.
  apply (corr_df_display_keeps_rows false [nan_row; weak_row]). discriminate.
Defined.

(** ** Relabelling before the correlations (line 175) *)

Lemma getcol_None df c : getcol df c = None <-> c ∉ df.*1.
Proof.
  induction df as [|[c' xs] df IH]; simpl.
  - split; [intros _; apply not_elem_of_nil|reflexivity].
  - rewrite not_elem_of_cons. destruct (decide (c = c')) as [->|Hne].
    + split; [discriminate|]. now intros [[] _].
    + rewrite IH. tauto.
Qed.

Lemma getcol_is_Some df c : is_Some (getcol df c) <-> c ∈ df.*1.
Proof.
  destruct (getcol df c) as [xs|] eqn:E.
  - split; [intros _|eauto]. destruct (decide (c ∈ df.*1)) as [|Hn]; [done|].
    apply getcol_None in Hn. congruence.
  - split; [intros [? ?]; discriminate|]. intros H.
    now apply getcol_None in E.
Qed.

(** A label that the mapping leaves alone, and that no other label is
    mapped to, names the same column after [rename]. *)
Lemma getcol_rename m df c :
  rename_label m c = c ->
  (forall c', c' ∈ df.*1 -> rename_label m c' = c -> c' = c) ->
  getcol (rename m df) c = getcol df c.
Proof.
  intros Hc. induction df as [|[c' xs] df IH]; intros H; [reflexivity|].
  simpl. destruct (decide (c = rename_label m c')) as [E|Hne].
  - rewrite (H c') by (simpl; rewrite ?elem_of_cons; auto).
    now rewrite decide_True.
  - rewrite decide_False by (intros ->; congruence).
    apply IH. intros c'' Hin. apply H. simpl. rewrite elem_of_cons. auto.
Qed.

Lemma getcol_rename_None m df c :
  (forall c', c' ∈ df.*1 -> rename_label m c' <> c) ->
  getcol (rename m df) c = None.
Proof.
  intros H. apply getcol_None. unfold rename.
  rewrite <- list_fmap_compose. intros Hin.
  apply list_elem_of_fmap in Hin as ([c' xs] & -> & Hin).
  apply (H c'); [|reflexivity].
  apply list_elem_of_fmap. exists (c', xs). auto.
Qed.

Lemma str_lower_Y_value : str_lower "Y_value" ∉ indicator_names.
Proof. intros H. apply (bool_decide_pack _) in H. vm_compute in H. exact H. Qed.

Lemma str_lower_Y_trans : str_lower "Y_trans" ∉ indicator_names.
Proof. intros H. apply (bool_decide_pack _) in H. vm_compute in H. exact H. Qed.

Lemma str_lower_Country : str_lower "Country" ∉ indicator_names.
Proof. intros H. apply (bool_decide_pack _) in H. vm_compute in H. exact H. Qed.

Lemma select_candidate_y_elem df_gnp c :
  c ∈ select_candidate_y df_gnp ->
  c ∈ columns df_gnp /\ str_lower c ∈ indicator_names.
Proof.
  unfold select_candidate_y. rewrite list_elem_of_filter. tauto.
Qed.

Lemma select_candidate_y_fresh df_gnp c :
  c ∈ select_candidate_y df_gnp ->
  c <> "Y_value" /\ c <> "Y_trans" /\ c <> "Country".
Proof.
  intros H. apply select_candidate_y_elem in H as [_ H].
  split; [|split]; intros ->.
  - now apply str_lower_Y_value.
  - now apply str_lower_Y_trans.
  - now apply str_lower_Country.
Qed.

Section TableProps.

Variables pearsonr spearmanr : list float -> list float -> float * float.

Local Abbreviation compute := (compute_correlations pearsonr spearmanr).
Local Abbreviation row := (corr_row pearsonr spearmanr).

(** With the log scale switched off, the table section never shows a
    table: line 175 relabels [Y_value] to the indicator's own label, so
    the column [Y_value] asked for is gone and [KeyError] is raised (for
    [pearson_r] when no personality column was requested).  The indicator
    label is one the column detection offers; the joined table has no
    column [Y_trans], which only the log transform adds. *)
Theorem table_section_without_log
    (use_abs_sort : bool) (df_gnp : Frame) (y_col : string)
    (mbti_cols : list string) (df_join : NumFrame) :
  y_col ∈ select_candidate_y df_gnp ->
  "Y_trans" ∉ df_join.*1 ->
  exists l,
    table_section pearsonr spearmanr false use_abs_sort y_col mbti_cols df_join
    = Raise (KeyError l).
Proof.
  intros Hy Ht. apply select_candidate_y_fresh in Hy as (Hv & _ & _).
  unfold table_section, corr_table. cbn [log_transform bind fst snd].
  assert (Hn : getcol (rename [("Y_value", y_col); ("Y_trans", "Y_value")]
                         df_join) "Y_value" = None).
  { apply getcol_rename_None. intros c' Hin. simpl.
    destruct (decide (c' = "Y_value")) as [_|Hne]; [exact Hv|].
    destruct (decide (c' = "Y_trans")) as [->|_]; [done|exact Hne]. }
  destruct mbti_cols as [|c rest].
  - exists "pearson_r". reflexivity.
  - cbn [compute_correlations]. unfold getitem2. rewrite Hn.
    destruct (getcol _ c); eexists; reflexivity.
Qed.

(** With the log scale on, the relabelling of line 175 does not touch the
    columns the correlations read: the section shows the rows computed
    on the transformed table, one per requested column, sorted by the
    signed coefficient with the missing ones last.  The joined table has
    the column [Y_value] and the requested columns; no requested column
    is labelled [Y_value] or [Y_trans], and the indicator's label is not
    a label of the joined table. *)
Theorem table_section_with_log
    (use_abs_sort : bool) (df_gnp : Frame) (y_col : string)
    (mbti_cols : list string) (df_join : NumFrame) (ys : list float) :
  y_col ∈ select_candidate_y df_gnp ->
  y_col ∉ df_join.*1 ->
  getcol df_join "Y_value" = Some ys ->
  has_columns df_join mbti_cols = true ->
  mbti_cols <> [] ->
  "Y_value" ∉ mbti_cols ->
  "Y_trans" ∉ mbti_cols ->
  exists shown,
    table_section pearsonr spearmanr true use_abs_sort y_col mbti_cols df_join
    = Ok shown
    /\ Permutation shown
         (map (fun c =>
                 row c (valid_rows (setcol df_join "Y_trans" (map log1p ys))
                          c "Y_trans"))
            mbti_cols)
    /\ StronglySorted shown_above shown.
Proof.
  intros Hy Hfresh Hys Hcols Hne Hv Ht.
  apply select_candidate_y_fresh in Hy as (_ & Hyt & _).
  unfold table_section, corr_table, log_transform. rewrite Hys.
  cbn [bind fst snd].
  set (df' := setcol df_join "Y_trans" (map log1p ys)).
  assert (Hin : forall c, c ∈ mbti_cols -> c ∈ df_join.*1).
  { intros c Hc. apply getcol_is_Some. eapply has_columns_elem; eassumption. }
  assert (Hlab : forall c', c' ∈ df'.*1 -> c' = "Y_trans" \/ c' ∈ df_join.*1).
  { intros c' Hc'. destruct (decide (c' = "Y_trans")) as [|Hd]; [now left|].
    right. apply getcol_is_Some. apply getcol_is_Some in Hc'.
    unfold df' in Hc'. now rewrite getcol_setcol_ne in Hc'. }
  rewrite (compute_correlations_ext _ _ _ df').
  2:{ intros c Hc. apply getcol_rename.
      - simpl. rewrite elem_of_cons in Hc.
        destruct (decide (c = "Y_value")) as [->|_].
        + destruct Hc as [Hc|Hc]; [discriminate|done].
        + now destruct (decide (c = "Y_trans")) as [->|_].
      - intros c' Hc'. simpl.
        destruct (decide (c' = "Y_value")) as [->|_].
        + intros <-. rewrite elem_of_cons in Hc.
          destruct Hc as [Hc|Hc]; [done|]. now apply Hin in Hc.
        + now destruct (decide (c' = "Y_trans")) as [->|_]. }
  rewrite compute_correlations_ok.
  2:{ unfold has_columns in *. cbn [forallb]. unfold df'.
      rewrite getcol_setcol_eq, bool_decide_eq_true_2 by eauto.
      cbn [andb]. rewrite forallb_forall in Hcols. apply forallb_forall.
      intros c Hc. rewrite getcol_setcol_ne; [now apply Hcols|].
      intros ->. now apply list_elem_of_In in Hc. }
  cbn [bind]. rewrite corr_df_display_Ok by (now destruct mbti_cols).
  eexists. split; [reflexivity|]. split.
  - apply sort_desc_Permutation.
  - apply (sort_desc_sorted pearson_r).
Qed.

End TableProps.

Lemma table_section_without_log_witness :
  exists l,
    table_section (const_stat NaN NaN) (const_stat NaN NaN)
      false true "GNP" ["INFP"] positive_join
    = Raise (KeyError l).
Proof.
  apply (table_section_without_log _ _ true gnp_without_country).
  - rewrite select_candidate_y_sample. apply list_elem_of_singleton. reflexivity.
  - apply (bool_decide_unpack _). exact I.
Defined.

Lemma table_section_with_log_witness :
  exists shown,
    table_section (const_stat NaN NaN) (const_stat NaN NaN)
      true true "GNP" ["INFP"] positive_join
    = Ok shown
    /\ length shown = 1%nat.
Proof.
  destruct (table_section_with_log (const_stat NaN NaN) (const_stat NaN NaN)
              true gnp_without_country "GNP" ["INFP"] positive_join
              [Fin 30000; Fin 0; NaN]%R)
    as (shown & E & P & _).
  - rewrite select_candidate_y_sample. apply list_elem_of_singleton. reflexivity.
  - apply (bool_decide_unpack _). exact I.
  - reflexivity.
  - reflexivity.
  - discriminate.
  - apply (bool_decide_unpack _). exact I.
  - apply (bool_decide_unpack _). exact I.
  - exists shown. split; [exact E|]. now rewrite (Permutation_length P).
Defined.

(** ** Rows and columns of the joined table *)

Lemma take_rows_cons {A} (col : list A) i idx x :
  col !! i = Some x -> take_rows col (i :: idx) = x :: take_rows col idx.
Proof. intros H. unfold take_rows. simpl. now rewrite H. Qed.

(** The same as [take_rows_match_rows] for any left column [rows] whose
    keys are given by [g]. *)
Lemma take_rows_match_rows_by {B} (g : B -> pystr) (pre rows : list B) rk :
  take_rows (pre ++ rows) (match_rows (length pre) (map g rows) rk).*1
  = filter (fun r => g r ∈ rk) rows.
Proof.
  revert pre. induction rows as [|r rows IH]; intros pre; [reflexivity|].
  cbn [map match_rows].
  specialize (IH (pre ++ [r])). rewrite <- app_assoc, length_app in IH.
  simpl in IH. rewrite Nat.add_1_r in IH.
  destruct (index_of (g r) rk) as [j|] eqn:E.
  - rewrite filter_cons_True
      by (apply index_of_Some in E; eapply list_elem_of_lookup_2, E).
    cbn [fmap list_fmap fst].
    rewrite (take_rows_cons _ _ _ r) by (now apply list_lookup_middle).
    f_equal. exact IH.
  - rewrite filter_cons_False by (now apply index_of_None). exact IH.
Qed.

Lemma take_rows_zip {A B} (a : list A) (b : list B) idx :
  length a = length b ->
  take_rows (zip a b) idx = zip (take_rows a idx) (take_rows b idx).
Proof.
  intros Hlen. induction idx as [|i idx IH]; [reflexivity|].
  unfold take_rows in *. cbn [omap list_omap].
  rewrite lookup_zip_with.
  destruct (a !! i) as [x|] eqn:Ea, (b !! i) as [y|] eqn:Eb; simpl.
  - now rewrite IH.
  - apply lookup_lt_Some in Ea. apply lookup_ge_None in Eb. lia.
  - apply lookup_ge_None in Ea. apply lookup_lt_Some in Eb. lia.
  - exact IH.
Qed.

Lemma take_rows_by_key {A} (col : list A) lk rk :
  length lk = length col ->
  zip (take_rows lk (match_rows 0 lk rk).*1)
      (take_rows col (match_rows 0 lk rk).*1)
  = filter (fun kc => kc.1 ∈ rk) (zip lk col).
Proof.
  intros Hlen. rewrite <- take_rows_zip by exact Hlen.
  rewrite <- (take_rows_match_rows_by fst [] (zip lk col) rk).
  simpl. now rewrite fst_zip by lia.
Qed.

Lemma match_rows_bounds i lk rk :
  Forall (fun p => (i <= p.1 < i + length lk)%nat /\ (p.2 < length rk)%nat)
    (match_rows i lk rk).
Proof.
  revert i. induction lk as [|k lk IH]; intros i; simpl; [constructor|].
  assert (H : Forall (fun p => (i <= p.1 < i + S (length lk))%nat
                               /\ (p.2 < length rk)%nat)
                (match_rows (S i) lk rk)).
  { eapply Forall_impl; [apply IH|]. simpl. intros p. lia. }
  destruct (index_of k rk) as [j|] eqn:E; [|exact H].
  constructor; [|exact H]. simpl. split; [lia|].
  apply index_of_Some in E. now apply lookup_lt_Some in E.
Qed.

Lemma length_take_rows {A} (col : list A) idx :
  Forall (fun i => (i < length col)%nat) idx ->
  length (take_rows col idx) = length idx.
Proof.
  induction 1 as [|i idx Hi _ IH]; [reflexivity|].
  apply lookup_lt_is_Some in Hi as [x Hx].
  rewrite (take_rows_cons _ _ _ x Hx). simpl. now rewrite IH.
Qed.

Lemma match_rows_values i lk rk (ys : list float) :
  length ys = length rk ->
  Forall2 (fun k y => exists q, rk !! q = Some k /\ ys !! q = Some y)
    (filter (.∈ rk) lk) (take_rows ys (match_rows i lk rk).*2).
Proof.
  intros Hlen. revert i. induction lk as [|k lk IH]; intros i; [constructor|].
  simpl match_rows. destruct (index_of k rk) as [j|] eqn:E.
  - pose proof (index_of_Some _ _ _ E) as Hj.
    rewrite filter_cons_True by (eapply list_elem_of_lookup_2, Hj).
    destruct (lookup_lt_is_Some_2 ys j) as [y Hy].
    { rewrite Hlen. now apply lookup_lt_Some in Hj. }
    cbn [fmap list_fmap snd]. rewrite (take_rows_cons _ _ _ y Hy).
    constructor; [eauto|apply IH].
  - rewrite filter_cons_False by (now apply index_of_None). apply IH.
Qed.

Lemma join_inv names lk mbti rk y_col ys j :
  join names lk mbti rk y_col ys = Ok j ->
  NoDup rk
  /\ j_Country j = take_rows names (match_rows 0 lk rk).*1
  /\ j_Country_norm j = take_rows lk (match_rows 0 lk rk).*1
  /\ j_num j
     = map (fun cx => (left_label y_col cx.1,
                       take_rows cx.2 (match_rows 0 lk rk).*1)) mbti
       ++ [(right_label mbti y_col, take_rows ys (match_rows 0 lk rk).*2)].
Proof.
  unfold join, merge_indexer. case_bool_decide as Hnd; [|discriminate].
  simpl. intros [= <-]. auto.
Qed.

Lemma getcol_app df1 df2 c :
  getcol (df1 ++ df2) c
  = match getcol df1 c with Some xs => Some xs | None => getcol df2 c end.
Proof.
  induction df1 as [|[c' xs] df1 IH]; [reflexivity|]. simpl.
  now destruct (decide (c = c')).
Qed.

Lemma match_rows_nil i lk rk :
  (forall k, k ∈ lk -> k ∉ rk) -> match_rows i lk rk = [].
Proof.
  revert i. induction lk as [|k lk IH]; intros i H; [reflexivity|]. simpl.
  rewrite (proj2 (index_of_None k rk)) by (apply H; rewrite elem_of_cons; auto).
  apply IH. intros k' Hk'. apply H. rewrite elem_of_cons. auto.
Qed.

(** The inner join keeps exactly the rows of the personality table whose
    normalized name occurs in the economic table, in the order of the
    personality table, each with its own name and ratios. *)
Theorem join_rows (names : list obj) (lk rk : list pystr) (mbti : NumFrame)
    (y_col : string) (ys : list float) (j : Joined) :
  join names lk mbti rk y_col ys = Ok j ->
  length names = length lk ->
  zip (j_Country_norm j) (j_Country j)
  = filter (fun kn => kn.1 ∈ rk) (zip lk names)
  /\ forall c xs,
       (c, xs) ∈ mbti -> length xs = length lk ->
       exists xs',
         (left_label y_col c, xs') ∈ j_num j
         /\ zip (j_Country_norm j) xs'
            = filter (fun kx => kx.1 ∈ rk) (zip lk xs).
Proof.
  intros H Hlen. apply join_inv in H as (_ & -> & -> & ->). split.
  - now apply take_rows_by_key.
  - intros c xs Hin Hxs. eexists. split.
    + apply elem_of_app. left. apply list_elem_of_fmap.
      exists (c, xs). split; [reflexivity|exact Hin].
    + now apply take_rows_by_key.
Qed.

Lemma join_rows_witness :
  exists j,
    join sample_names sample_lk [("INFP", [Fin 0.1; Fin 0.2; Fin 0.3]%R)]
      sample_rk "GNP" [Fin 1; Fin 2; Fin 3]%R = Ok j
    /\ zip (j_Country_norm j) (j_Country j)
       = filter (fun kn => kn.1 ∈ sample_rk) (zip sample_lk sample_names).
Proof.
  eexists. split; [reflexivity|].
  eapply (join_rows sample_names sample_lk sample_rk); reflexivity.
Defined.

(** Each joined row carries the indicator value of the economic row with
    the same normalized name, in the column [Y_value], when no personality
    column is labelled like the indicator or [Y_value]. *)
Theorem join_values (names : list obj) (lk rk : list pystr) (mbti : NumFrame)
    (y_col : string) (ys : list float) (j : Joined) :
  join names lk mbti rk y_col ys = Ok j ->
  length ys = length rk ->
  y_col ∉ mbti.*1 ->
  "Y_value" ∉ mbti.*1 ->
  exists ycol,
    getcol (j_num j) "Y_value" = Some ycol
    /\ Forall2 (fun k y => exists q, rk !! q = Some k /\ ys !! q = Some y)
         (j_Country_norm j) ycol.
Proof.
  intros H Hlen Hy Hv. pose proof (join_Ok _ _ _ _ _ _ _ H) as [_ Hk].
  apply join_inv in H as (_ & _ & _ & Hnum).
  exists (take_rows ys (match_rows 0 lk rk).*2). split.
  - rewrite Hnum, getcol_app.
    rewrite (proj2 (getcol_None _ _)).
    + unfold right_label. rewrite bool_decide_eq_false_2 by exact Hy.
      reflexivity.
    + rewrite <- list_fmap_compose. intros Hin.
      apply list_elem_of_fmap in Hin as ([c xs] & E & Hin). simpl in E.
      assert (Hc : c ∈ mbti.*1).
      { apply list_elem_of_fmap. exists (c, xs). auto. }
      unfold left_label in E. destruct (decide (c = y_col)) as [->|_];
        [done|]. now subst c.
  - rewrite Hk. now apply match_rows_values.
Qed.

Lemma join_values_witness :
  exists j ycol,
    join sample_names sample_lk [("INFP", [Fin 0.1; Fin 0.2; Fin 0.3]%R)]
      sample_rk "GNP" [Fin 1; Fin 2; Fin 3]%R = Ok j
    /\ getcol (j_num j) "Y_value" = Some ycol
    /\ length ycol = length (j_Country_norm j).
Proof.
  eexists.
  destruct (join_values sample_names sample_lk sample_rk
              [("INFP", [Fin 0.1; Fin 0.2; Fin 0.3]%R)] "GNP"
              [Fin 1; Fin 2; Fin 3]%R _ eq_refl eq_refl)
    as (ycol & E & F).
  - apply (bool_decide_unpack _). exact I.
  - apply (bool_decide_unpack _). exact I.
  - exists ycol. split; [reflexivity|]. split; [exact E|].
    symmetry. exact (Forall2_length _ _ _ F).
Defined.

(** The joined table is rectangular: when the columns of each input table
    have as many rows as its key column, every column of the joined table
    has one cell per joined row, and there are no more joined rows than
    rows of the personality table. *)
Theorem join_rectangular (names : list obj) (lk rk : list pystr)
    (mbti : NumFrame) (y_col : string) (ys : list float) (j : Joined) :
  join names lk mbti rk y_col ys = Ok j ->
  length names = length lk ->
  Forall (fun cx => length cx.2 = length lk) mbti ->
  length ys = length rk ->
  length (j_Country j) = length (j_Country_norm j)
  /\ Forall (fun cx => length cx.2 = length (j_Country_norm j)) (j_num j)
  /\ (length (j_Country_norm j) <= length lk)%nat.
Proof.
  intros H Hn Hm Hy. pose proof (join_Ok _ _ _ _ _ _ _ H) as [_ Hk].
  apply join_inv in H as (_ & Hc & Hkk & Hnum).
  pose proof (match_rows_bounds 0 lk rk) as Hb.
  assert (H1 : forall A (col : list A), length col = length lk ->
             length (take_rows col (match_rows 0 lk rk).*1)
             = length (match_rows 0 lk rk)).
  { intros A col Hlen. rewrite length_take_rows, length_fmap; [reflexivity|].
    apply Forall_fmap. eapply Forall_impl; [exact Hb|].
    simpl. intros p. lia. }
  assert (H2 : length (take_rows ys (match_rows 0 lk rk).*2)
               = length (match_rows 0 lk rk)).
  { rewrite length_take_rows, length_fmap; [reflexivity|].
    apply Forall_fmap. eapply Forall_impl; [exact Hb|].
    simpl. intros p. lia. }
  assert (Hlen : length (j_Country_norm j) = length (match_rows 0 lk rk)).
  { rewrite Hkk. now apply H1. }
  split; [|split].
  - rewrite Hc, Hlen. now apply H1.
  - rewrite Hnum, Hlen. apply Forall_app. split.
    + apply Forall_fmap. eapply Forall_impl; [exact Hm|].
      simpl. intros cx Hcx. now apply H1.
    + constructor; [exact H2|constructor].
  - rewrite Hk. apply length_filter.
Qed.

Lemma join_rectangular_witness :
  exists j,
    join sample_names sample_lk [("INFP", [Fin 0.1; Fin 0.2; Fin 0.3]%R)]
      sample_rk "GNP" [Fin 1; Fin 2; Fin 3]%R = Ok j
    /\ length (j_Country j) = length (j_Country_norm j).
Proof.
  eexists. split; [reflexivity|].
  eapply (join_rectangular sample_names sample_lk sample_rk);
    [reflexivity|reflexivity| |reflexivity].
  repeat constructor.
Defined.

(** Unique economic names are all the join needs: it then returns a table
    even when no name is common to the two tables, and that table has no
    rows. *)
Theorem join_no_match (names : list obj) (lk rk : list pystr)
    (mbti : NumFrame) (y_col : string) (ys : list float) :
  NoDup rk ->
  (forall k, k ∈ lk -> k ∉ rk) ->
  exists j,
    join names lk mbti rk y_col ys = Ok j
    /\ j_Country j = [] /\ j_Country_norm j = []
    /\ Forall (fun cx => cx.2 = []) (j_num j).
Proof.
  intros Hnd Hno. unfold join, merge_indexer.
  rewrite bool_decide_eq_true_2 by exact Hnd. simpl.
  rewrite (match_rows_nil 0 lk rk Hno). eexists. split; [reflexivity|].
  simpl. split; [reflexivity|]. split; [reflexivity|].
  apply Forall_app. split; [|now repeat constructor].
  apply Forall_fmap, Forall_forall. now intros cx _.
Qed.

Lemma join_no_match_witness :
  exists j,
    join [OStr (py "Chile")] [py "Chile"] [("INFP", [Fin 0.1%R])]
      [py "Peru"] "GNP" [Fin 1%R] = Ok j
    /\ j_Country_norm j = [].
Proof.
  destruct (join_no_match [OStr (py "Chile")] [py "Chile"] [py "Peru"]
              [("INFP", [Fin 0.1%R])] "GNP" [Fin 1%R])
    as (j & E & _ & Hk & _).
  - apply (bool_decide_unpack _). exact I.
  - intros k Hk. apply list_elem_of_singleton in Hk as ->.
    apply (bool_decide_unpack _). exact I.
  - exists j. split; assumption.
Defined.

Lemma append_suffix_ne_Y_value (s : string) (a : ascii) :
  (s +:+ String "_" (String a EmptyString))%string <> "Y_value".
Proof.
  intros H.
  do 6 (destruct s as [|? s]; simpl in H; [discriminate H|];
        injection H as _ H).
  destruct s as [|? s]; simpl in H; [discriminate H|].
  injection H as _ H. destruct s; discriminate H.
Qed.

(** When a numeric column of the personality table carries the label of
    the selected indicator, the merge suffixes both columns, the rename
    to [Y_value] finds nothing to rename, and the log transform raises
    [KeyError] for [Y_value]. *)
Theorem join_label_clash (names : list obj) (lk rk : list pystr)
    (mbti : NumFrame) (y_col : string) (ys : list float) (j : Joined) :
  join names lk mbti rk y_col ys = Ok j ->
  y_col ∈ mbti.*1 ->
  "Y_value" ∉ mbti.*1 ->
  getcol (j_num j) "Y_value" = None
  /\ log_transform true (j_num j) = Raise (KeyError "Y_value").
Proof.
  intros H Hy Hv. apply join_inv in H as (_ & _ & _ & Hnum).
  assert (Hn : getcol (j_num j) "Y_value" = None).
  { apply getcol_None. rewrite Hnum, fmap_app, elem_of_app.
    intros [Hin|Hin].
    - rewrite <- list_fmap_compose in Hin.
      apply list_elem_of_fmap in Hin as ([c xs] & E & Hin). simpl in E.
      unfold left_label in E. destruct (decide (c = y_col)) as [_|_].
      + symmetry in E. now apply append_suffix_ne_Y_value in E.
      + apply Hv. apply list_elem_of_fmap. exists (c, xs). auto.
    - simpl in Hin. apply list_elem_of_singleton in Hin.
      unfold right_label in Hin. rewrite bool_decide_eq_true_2 in Hin
        by exact Hy.
      symmetry in Hin. now apply append_suffix_ne_Y_value in Hin. }
  split; [exact Hn|]. unfold log_transform. now rewrite Hn.
Qed.

Lemma join_label_clash_witness :
  exists j,
    join [OStr (py "Chile")] [py "Chile"] [("GNP", [Fin 0.1%R])]
      [py "Chile"] "GNP" [Fin 1%R] = Ok j
    /\ log_transform true (j_num j) = Raise (KeyError "Y_value").
Proof.
  eexists. split; [reflexivity|].
  eapply (join_label_clash [OStr (py "Chile")] [py "Chile"] [py "Chile"]).
  - reflexivity.
  - apply (bool_decide_unpack _). exact I.
  - apply (bool_decide_unpack _). exact I.
Defined.

(** ** Further properties of the name normalizer *)

Lemma repl_keys_exact : forallb key_is_exact repl = true.
Proof. vm_compute. reflexivity. Qed.

(** Names that differ only in whitespace (around the name, or in the runs
    between its words) get the same normalized name, in every row. *)
Theorem normalize_country_name_same_words (s t : list obj) :
  Forall2 same_words s t ->
  normalize_country_name s = normalize_country_name t.
Proof.
  unfold normalize_country_name.
  induction 1 as [|a b s t Hab _ IH]; [reflexivity|].
  simpl. rewrite IH. f_equal.
  rewrite !normalize_name_spec. unfold spec_normalize_name.
  unfold same_words in Hab. now rewrite Hab.
Qed.

Lemma normalize_country_name_same_words_witness :
  normalize_country_name [OStr (py " South   Korea"); OStr (py "Peru ")]
  = normalize_country_name [OStr (py "South Korea"); OStr (py "Peru")].
Proof.
  apply normalize_country_name_same_words.
  repeat constructor.
Defined.

(** The names the normalizer leaves unchanged are exactly those in
    whitespace normal form that are no key of the alias table. *)
Theorem normalize_name_fixed_point (s : pystr) :
  normalize_name (OStr s) = s
  <-> ws_normal s = true /\ dict_get repl s = None.
Proof.
  split.
  - intros E. rewrite <- E. apply normalize_name_normal.
  - intros [Hn Hk]. unfold normalize_name, base_name. simpl astype_str.
    rewrite collapse_strip_fix by exact Hn.
    unfold replace_value. rewrite Hk. reflexivity.
Qed.

(** An alias applies whatever the whitespace: a name with the words of a
    key of the table is normalized to the value of that key. *)
Theorem normalize_name_alias (o : obj) (k v : pystr) :
  (k, v) ∈ repl ->
  words (astype_str o) = words k ->
  normalize_name o = v.
Proof.
  intros Hin Hw. pose proof repl_keys_exact as F.
  rewrite forallb_forall in F. apply list_elem_of_In in Hin.
  specialize (F _ Hin).
  change (ws_normal k && bool_decide (dict_get repl k = Some v) = true) in F.
  apply andb_true_iff in F as [Hn Hk]. apply bool_decide_eq_true in Hk.
  unfold normalize_name, base_name.
  rewrite collapse_strip_words, Hw, <- collapse_strip_words.
  rewrite collapse_strip_fix by exact Hn.
  unfold replace_value. rewrite Hk. reflexivity.
Qed.

Lemma normalize_name_alias_witness :
  normalize_name (OStr (py "  Czech 	Republic ")) = py "Czechia".
Proof.
  apply (normalize_name_alias _ (py "Czech Republic")).
  - apply (bool_decide_unpack _). vm_compute. exact I.
  - vm_compute. reflexivity.
Defined.

(** ** Outcome of the column checks *)

(** The checks let the request through exactly when the personality table
    has the column [Country] and the economic table has a column whose
    lower-cased label is one of the six indicator names; they halt with a
    message otherwise and never raise.  When they pass, the list of
    indicator columns offered for selection is not empty and [Country] is
    no personality column. *)
Theorem preprocess_outcome (df_mbti df_gnp : Frame) :
  (checks_pass df_mbti df_gnp ->
     exists p, preprocess df_mbti df_gnp = Ok p
               /\ p_candidate_y p = select_candidate_y df_gnp
               /\ p_candidate_y p <> []
               /\ ("Country" ∉ p_mbti_cols p)
               /\ ("Country" ∉ p_candidate_y p))
  /\ (~ checks_pass df_mbti df_gnp ->
      exists msg, preprocess df_mbti df_gnp = Stop msg).
Proof.
  unfold checks_pass, preprocess. split.
  - intros [[names ->] (c & Hc & Hl)].
    assert (Hin : c ∈ select_candidate_y df_gnp).
    { unfold select_candidate_y. apply list_elem_of_filter. auto. }
    destruct (select_candidate_y df_gnp) as [|c' cy] eqn:E.
    { now apply elem_of_nil in Hin. }
    eexists. split; [reflexivity|]. simpl.
    split; [reflexivity|]. split; [discriminate|]. split.
    + unfold select_mbti_cols. intros H.
      apply list_elem_of_fmap in H as ([c0 x] & -> & H).
      apply list_elem_of_filter in H as [[H _] _]. now apply H.
    + rewrite <- E. intros H.
      apply select_candidate_y_fresh in H as (_ & _ & H). now apply H.
  - intros Hno. destruct (Country df_mbti) as [names|]; [|eauto].
    destruct (select_candidate_y df_gnp) as [|c cy] eqn:E; [eauto|].
    exfalso. apply Hno. split; [eauto|]. exists c.
    apply select_candidate_y_elem. rewrite E. apply elem_of_cons. auto.
Qed.

Lemma preprocess_outcome_witness :
  exists p, preprocess sample_mbti gnp_without_country = Ok p
            /\ p_candidate_y p = ["GNP"].
Proof.
  destruct (proj1 (preprocess_outcome sample_mbti gnp_without_country))
    as (p & E & Hc & _).
  - split; [eexists; reflexivity|]. exists "GNP". split.
    + apply (bool_decide_unpack _). exact I.
    + apply (bool_decide_unpack _). exact I.
  - exists p. split; [exact E|].
    rewrite Hc. apply select_candidate_y_sample.
Defined.

(** ** Scatter section *)

Lemma filter_zip_notna (countries : list obj) (sub : list (float * float)) :
  Forall (fun o => obj_notna o = true) countries ->
  (length sub <= length countries)%nat ->
  (filter (fun r => obj_notna r.1 = true /\ row_valid r.2 = true)
     (zip countries sub)).*2
  = dropna sub.
Proof.
  intros Hc. revert sub. induction Hc as [|o cs Ho _ IH]; intros sub Hlen.
  - destruct sub; [reflexivity|simpl in Hlen; lia].
  - destruct sub as [|r sub]; [reflexivity|]. simpl in Hlen.
    unfold dropna in *. cbn [zip_with].
    destruct (row_valid r) eqn:E.
    + rewrite !filter_cons_True by (simpl; auto). simpl. f_equal.
      apply IH. lia.
    + rewrite (filter_cons_False _ (o, r)) by (simpl; intros [_ H]; congruence).
      rewrite (filter_cons_False _ r) by congruence.
      apply IH. lia.
Qed.

Section ScatterProps.

Variables pearsonr spearmanr : list float -> list float -> float * float.

(** For the selected personality column, the scatter section reports what
    the table holds in the row of that column: the warning when fewer than
    3 rows are valid, the same four figures and sample size otherwise.
    This needs every joined row to have its country name: the scatter
    section also drops the rows whose name cell is missing. *)
Theorem scatter_stats_table
    (countries : list obj) (df_join : NumFrame)
    (target_mbti y_for_corr : string) (xs ys : list float) :
  getcol df_join target_mbti = Some xs ->
  getcol df_join y_for_corr = Some ys ->
  length countries = length xs ->
  Forall (fun o => obj_notna o = true) countries ->
  exists r,
    compute_correlations pearsonr spearmanr df_join [target_mbti] y_for_corr
    = Ok [r]
    /\ scatter_stats pearsonr spearmanr countries df_join target_mbti y_for_corr
       = Ok (figures_of_row r).
Proof.
  intros Hx Hy Hlen Hc. eexists. split.
  - cbn [compute_correlations]. unfold getitem2. rewrite Hx, Hy. reflexivity.
  - unfold scatter_stats, getitem2. rewrite Hx, Hy. cbn [bind].
    pose proof (filter_zip_notna countries (zip xs ys) Hc) as HS.
    rewrite length_zip in HS. specialize (HS ltac:(lia)).
    set (S := filter _ (zip countries (zip xs ys))) in *.
    assert (HL : length S = length (dropna (zip xs ys))).
    { now rewrite <- HS, length_fmap. }
    rewrite HL, HS. unfold figures_of_row, corr_row.
    destruct (length (dropna (zip xs ys)) <? 3)%nat eqn:E; simpl; now rewrite E.
Qed.

End ScatterProps.

Lemma scatter_stats_table_witness :
  scatter_stats (const_stat (Fin 1) (Fin 0)) (const_stat (Fin 1) (Fin 0))
    [OStr (py "Chile"); OStr (py "Peru"); OStr (py "Japan")]
    sample_join "ESTJ" "Y_trans"
  = Ok (Figures (Fin 1) (Fin 0) (Fin 1) (Fin 0) 3).
Proof.
  destruct (scatter_stats_table
              (const_stat (Fin 1) (Fin 0)) (const_stat (Fin 1) (Fin 0))
              [OStr (py "Chile"); OStr (py "Peru"); OStr (py "Japan")]
              sample_join "ESTJ" "Y_trans" _ _ eq_refl eq_refl eq_refl)
    as (r & E & ->).
  - repeat constructor.
  - injection E as <-. reflexivity.
Defined.

(** ** Names reported as unmatched *)

(** After a successful join, the names reported as unmatched on either
    side are exactly the normalized names that occur in that table and not
    in the other one, and the matched count is the number of distinct
    names common to both. *)
Theorem match_report_unmatched (names : list obj) (lk rk : list pystr)
    (mbti : NumFrame) (y_col : string) (ys : list float) (j : Joined) :
  join names lk mbti rk y_col ys = Ok j ->
  let rep := match_report lk rk (j_Country_norm j) in
  (forall k, k ∈ miss_mbti rep <-> k ∈ lk /\ k ∉ rk)
  /\ (forall k, k ∈ miss_gnp rep <-> k ∈ rk /\ k ∉ lk)
  /\ n_matched rep = size (list_to_set lk ∩ list_to_set rk : gset pystr).
Proof.
  intros H. apply join_Ok in H as [_ ->]. simpl. split; [|split].
  - intros k.
    rewrite elem_of_difference, !elem_of_list_to_set, list_elem_of_filter.
    tauto.
  - intros k.
    rewrite elem_of_difference, !elem_of_list_to_set, list_elem_of_filter.
    tauto.
  - unfold nunique. f_equal. apply set_eq. intros k.
    rewrite elem_of_intersection, !elem_of_list_to_set, list_elem_of_filter.
    tauto.
Qed.

Lemma match_report_unmatched_witness :
  exists j,
    join sample_names sample_lk [("INFP", [Fin 0.1; Fin 0.2; Fin 0.3]%R)]
      sample_rk "GNP" [Fin 1; Fin 2; Fin 3]%R = Ok j
    /\ (py "Chile" ∈ miss_mbti (match_report sample_lk sample_rk
                                   (j_Country_norm j))).
Proof.
  eexists. split; [reflexivity|].
  match goal with
  | |- _ ∈ miss_mbti (match_report _ _ (j_Country_norm ?j)) =>
      destruct (match_report_unmatched sample_names sample_lk sample_rk
                  [("INFP", [Fin 0.1; Fin 0.2; Fin 0.3]%R)] "GNP"
                  [Fin 1; Fin 2; Fin 3]%R j eq_refl) as (Hm & _ & _)
  end.
  apply Hm. split; apply (bool_decide_unpack _); vm_compute; exact I.
Defined.
